(** * Schema and validation model of [app/models.py]

    The source file is purely declarative: enumerations, twelve persisted
    SQLModel tables and twelve non-persistent create/update shapes.  Each
    declaration is embedded as data (a list of field descriptors carrying
    exactly the keyword arguments written in the source) and given meaning
    by an executable interpreter of the declared constraints. *)

From Stdlib Require Import ZArith Ascii String List Bool Lia.
From stdpp Require Import gmap strings list fin_maps.

Set Default Proof Using "Type".
Set Warnings "-abstract-large-number,-clear-no-such-hyp".

(** ** Regular expressions

    [Field(regex=...)] carries a pattern.  Patterns are embedded as syntax
    trees and matched with Brzozowski derivatives; [Matches] is the usual
    denotation, against which the matcher is proved sound and complete.
    The anchors [^] and [$] of the source pattern are rendered by matching
    the whole input. *)
Module Regex.

(** A character class is a list of inclusive ranges, [a-z] being
    [("a","z")] and a single character [c] being [(c,c)]. *)
Definition crange : Type := ascii * ascii.

Definition in_range (c : ascii) (r : crange) : bool :=
  (N_of_ascii (fst r) <=? N_of_ascii c)%N && (N_of_ascii c <=? N_of_ascii (snd r))%N.

Definition in_class (cls : list crange) (c : ascii) : bool :=
  existsb (in_range c) cls.

Inductive re : Type :=
| Void
| Eps
| Cls (cls : list crange)
| Cat (r1 r2 : re)
| Alt (r1 r2 : re)
| Star (r : re).

Definition Lit (c : ascii) : re := Cls [(c, c)].
Definition Plus (r : re) : re := Cat r (Star r).

Fixpoint nullable (r : re) : bool :=
  match r with
  | Void => false
  | Eps => true
  | Cls _ => false
  | Cat r1 r2 => nullable r1 && nullable r2
  | Alt r1 r2 => nullable r1 || nullable r2
  | Star _ => true
  end.

Fixpoint deriv (c : ascii) (r : re) : re :=
  match r with
  | Void => Void
  | Eps => Void
  | Cls cls => if in_class cls c then Eps else Void
  | Cat r1 r2 =>
      if nullable r1
      then Alt (Cat (deriv c r1) r2) (deriv c r2)
      else Cat (deriv c r1) r2
  | Alt r1 r2 => Alt (deriv c r1) (deriv c r2)
  | Star r1 => Cat (deriv c r1) (Star r1)
  end.

Fixpoint re_match (r : re) (s : string) : bool :=
  match s with
  | EmptyString => nullable r
  | String c s' => re_match (deriv c r) s'
  end.

Inductive Matches : re → string → Prop :=
| MEps : Matches Eps ""
| MCls cls c : in_class cls c = true → Matches (Cls cls) (String c "")
| MCat r1 r2 s1 s2 :
    Matches r1 s1 → Matches r2 s2 → Matches (Cat r1 r2) (s1 +:+ s2)
| MAltL r1 r2 s : Matches r1 s → Matches (Alt r1 r2) s
| MAltR r1 r2 s : Matches r2 s → Matches (Alt r1 r2) s
| MStar0 r : Matches (Star r) ""
| MStarS r s1 s2 :
    Matches r s1 → Matches (Star r) s2 → Matches (Star r) (s1 +:+ s2).

End Regex.

(** ** Enumerations

    Each [class X(str, Enum)] of the source is an inductive type with its
    members, the string carried by each member ([value]) and the lookup by
    value that Python performs when calling [X("...")]. *)

Module UserRole.
Inductive t : Type := ADMIN | MANAGER | VIEWER | EXTERNAL | TEAM_MEMBER.
Definition value (r : t) : string :=
  match r with
  | ADMIN => "admin"
  | MANAGER => "manager"
  | VIEWER => "viewer"
  | EXTERNAL => "external"
  | TEAM_MEMBER => "team_member"
  end.
Definition members : list t := [ADMIN; MANAGER; VIEWER; EXTERNAL; TEAM_MEMBER].
Definition of_value (s : string) : option t :=
  find (λ m, String.eqb (value m) s) members.
End UserRole.

Module ToolCategory.
Inductive t : Type := APP | PLATFORM | CONTROL_BOARD.
Definition value (r : t) : string :=
  match r with
  | APP => "app"
  | PLATFORM => "platform"
  | CONTROL_BOARD => "control_board"
  end.
Definition members : list t := [APP; PLATFORM; CONTROL_BOARD].
Definition of_value (s : string) : option t :=
  find (λ m, String.eqb (value m) s) members.
End ToolCategory.

Module OnboardingStatus.
Inductive t : Type := PENDING | IN_PROGRESS | COMPLETED.
Definition value (r : t) : string :=
  match r with
  | PENDING => "pending"
  | IN_PROGRESS => "in_progress"
  | COMPLETED => "completed"
  end.
Definition members : list t := [PENDING; IN_PROGRESS; COMPLETED].
Definition of_value (s : string) : option t :=
  find (λ m, String.eqb (value m) s) members.
End OnboardingStatus.

Module InductionStatus.
Inductive t : Type := NOT_STARTED | IN_PROGRESS | COMPLETED.
Definition value (r : t) : string :=
  match r with
  | NOT_STARTED => "not_started"
  | IN_PROGRESS => "in_progress"
  | COMPLETED => "completed"
  end.
Definition members : list t := [NOT_STARTED; IN_PROGRESS; COMPLETED].
Definition of_value (s : string) : option t :=
  find (λ m, String.eqb (value m) s) members.
End InductionStatus.

Module ContentType.
Inductive t : Type := TEXT | IMAGE | VIDEO | FILE | LINK.
Definition value (r : t) : string :=
  match r with
  | TEXT => "text"
  | IMAGE => "image"
  | VIDEO => "video"
  | FILE => "file"
  | LINK => "link"
  end.
Definition members : list t := [TEXT; IMAGE; VIDEO; FILE; LINK].
Definition of_value (s : string) : option t :=
  find (λ m, String.eqb (value m) s) members.
End ContentType.

(** The five enumeration classes, as they appear in field annotations. *)
Inductive enum_class : Type :=
| EUserRole | EToolCategory | EOnboardingStatus | EInductionStatus | EContentType.

Global Instance enum_class_eq_dec : EqDecision enum_class.
Proof. solve_decision. Defined.

(** The closed set of strings of an enumeration class. *)
Definition enum_values (c : enum_class) : list string :=
  match c with
  | EUserRole => UserRole.value <$> UserRole.members
  | EToolCategory => ToolCategory.value <$> ToolCategory.members
  | EOnboardingStatus => OnboardingStatus.value <$> OnboardingStatus.members
  | EInductionStatus => InductionStatus.value <$> InductionStatus.members
  | EContentType => ContentType.value <$> ContentType.members
  end.

(** ** Values *)

(** Contents of the JSON columns ([Dict[str, Any]]). *)
#[local] Set Warnings "-register-all".
Inductive json : Type :=
| JNull
| JBool (b : bool)
| JInt (z : Z)
| JStr (s : string)
| JArr (l : list json)
| JObj (l : list (string * json)).
#[local] Set Warnings "register-all".

(** A Python [Decimal] as [as_tuple()] shows it: sign, coefficient digits
    (most significant first) and exponent. *)
Record Decimal : Type := mkDecimal {
  sign : bool;
  digits : list nat;
  exponent : Z
}.

(** Values held by payloads and rows.  A member of a [str] enumeration is
    [VEnum c s], the member of class [c] whose value is [s]. *)
Inductive value : Type :=
| VNone
| VBool (b : bool)
| VInt (z : Z)
| VStr (s : string)
| VDatetime (t : Z)
| VDecimal (d : Decimal)
| VEnum (c : enum_class) (s : string)
| VDict (d : list (string * json))
| VList (l : list string).

(** ** Field descriptors

    One record per [Field(...)] call, holding the keyword arguments that
    occur in the source. *)

Inductive ftype : Type :=
| TInt | TStr | TBool | TDatetime | TDecimal
| TEnum (c : enum_class)
| TDict      (* Dict[str, Any] *)
| TListStr.  (* List[str] *)

Inductive fdefault : Type :=
| NoDefault
| Default (v : value)
| DefaultFactoryUtcnow.

Record FieldInfo : Type := mkField {
  name : string;
  annotation : ftype;
  optional : bool;            (* Optional[...] *)
  default : fdefault;
  primary_key : bool;
  unique : bool;
  foreign_key : option string;
  max_length : option nat;
  regex : option Regex.re;
  max_digits : option nat;
  decimal_places : option nat
}.

Definition Field (n : string) (ty : ftype) : FieldInfo :=
  mkField n ty false NoDefault false false None None None None None.

Definition Optional (f : FieldInfo) : FieldInfo :=
  mkField (name f) (annotation f) true (default f) (primary_key f) (unique f)
    (foreign_key f) (max_length f) (regex f) (max_digits f) (decimal_places f).
Definition with_default (v : value) (f : FieldInfo) : FieldInfo :=
  mkField (name f) (annotation f) (optional f) (Default v) (primary_key f) (unique f)
    (foreign_key f) (max_length f) (regex f) (max_digits f) (decimal_places f).
Definition with_default_factory_utcnow (f : FieldInfo) : FieldInfo :=
  mkField (name f) (annotation f) (optional f) DefaultFactoryUtcnow (primary_key f)
    (unique f) (foreign_key f) (max_length f) (regex f) (max_digits f) (decimal_places f).
Definition with_primary_key (f : FieldInfo) : FieldInfo :=
  mkField (name f) (annotation f) (optional f) (default f) true (unique f)
    (foreign_key f) (max_length f) (regex f) (max_digits f) (decimal_places f).
Definition with_unique (f : FieldInfo) : FieldInfo :=
  mkField (name f) (annotation f) (optional f) (default f) (primary_key f) true
    (foreign_key f) (max_length f) (regex f) (max_digits f) (decimal_places f).
Definition with_foreign_key (k : string) (f : FieldInfo) : FieldInfo :=
  mkField (name f) (annotation f) (optional f) (default f) (primary_key f) (unique f)
    (Some k) (max_length f) (regex f) (max_digits f) (decimal_places f).
Definition with_max_length (n : nat) (f : FieldInfo) : FieldInfo :=
  mkField (name f) (annotation f) (optional f) (default f) (primary_key f) (unique f)
    (foreign_key f) (Some n) (regex f) (max_digits f) (decimal_places f).
Definition with_regex (r : Regex.re) (f : FieldInfo) : FieldInfo :=
  mkField (name f) (annotation f) (optional f) (default f) (primary_key f) (unique f)
    (foreign_key f) (max_length f) (Some r) (max_digits f) (decimal_places f).
Definition with_max_digits (n : nat) (f : FieldInfo) : FieldInfo :=
  mkField (name f) (annotation f) (optional f) (default f) (primary_key f) (unique f)
    (foreign_key f) (max_length f) (regex f) (Some n) (decimal_places f).
Definition with_decimal_places (n : nat) (f : FieldInfo) : FieldInfo :=
  mkField (name f) (annotation f) (optional f) (default f) (primary_key f) (unique f)
    (foreign_key f) (max_length f) (regex f) (max_digits f) (Some n).

Notation "f |> g" := (g f) (at level 45, left associativity, only parsing).

(** A model class: its [__tablename__] when [table=True], and its fields in
    declaration order.  [Relationship] attributes are navigation links, not
    columns, and carry no constraint; they are left out. *)
Record Model : Type := mkModel {
  tablename : option string;
  fields : list FieldInfo
}.

Definition field_names (m : Model) : list string := name <$> fields m.

(** ** The declarations of [app/models.py] *)

Import Regex.

(** [^[a-zA-Z0-9_.+-]+@[a-zA-Z0-9-]+\.[a-zA-Z0-9-.]+$] *)
Definition alnum : list crange :=
  [("a", "z"); ("A", "Z"); ("0", "9")]%char.
Definition email_local : list crange :=
  alnum ++ [("_", "_"); (".", "."); ("+", "+"); ("-", "-")]%char.
Definition email_domain : list crange :=
  alnum ++ [("-", "-")]%char.
Definition email_suffix : list crange :=
  alnum ++ [("-", "-"); (".", ".")]%char.

Definition email_regex : re :=
  Cat (Plus (Cls email_local))
    (Cat (Lit "@")
       (Cat (Plus (Cls email_domain))
          (Cat (Lit ".") (Plus (Cls email_suffix))))).

Definition id_field : FieldInfo :=
  Field "id" TInt |> Optional |> with_default VNone |> with_primary_key.
Definition created_at_field : FieldInfo :=
  Field "created_at" TDatetime |> with_default_factory_utcnow.
Definition updated_at_field : FieldInfo :=
  Field "updated_at" TDatetime |> Optional |> with_default VNone.
Definition opt_str (n : string) (len : nat) : FieldInfo :=
  Field n TStr |> Optional |> with_default VNone |> with_max_length len.

Definition User : Model := mkModel (Some "users") [
  id_field;
  Field "email" TStr |> with_unique |> with_max_length 255 |> with_regex email_regex;
  Field "first_name" TStr |> with_max_length 100;
  Field "last_name" TStr |> with_max_length 100;
  Field "is_active" TBool |> with_default (VBool true);
  created_at_field;
  updated_at_field
].

Definition Project : Model := mkModel (Some "projects") [
  id_field;
  Field "name" TStr |> with_max_length 200;
  Field "description" TStr |> with_default (VStr "") |> with_max_length 2000;
  Field "code" TStr |> with_unique |> with_max_length 20;
  Field "start_date" TDatetime |> Optional |> with_default VNone;
  Field "end_date" TDatetime |> Optional |> with_default VNone;
  Field "is_active" TBool |> with_default (VBool true);
  Field "created_by_id" TInt |> with_foreign_key "users.id";
  created_at_field;
  updated_at_field;
  Field "settings" TDict |> with_default (VDict [])
].

Definition ProjectMembership : Model := mkModel (Some "project_memberships") [
  id_field;
  Field "user_id" TInt |> with_foreign_key "users.id";
  Field "project_id" TInt |> with_foreign_key "projects.id";
  Field "role" (TEnum EUserRole)
    |> with_default (VEnum EUserRole (UserRole.value UserRole.TEAM_MEMBER));
  Field "joined_at" TDatetime |> with_default_factory_utcnow;
  Field "is_active" TBool |> with_default (VBool true)
].

Definition Tool : Model := mkModel (Some "tools") [
  id_field;
  Field "name" TStr |> with_max_length 200;
  Field "description" TStr |> with_default (VStr "") |> with_max_length 1000;
  Field "category" (TEnum EToolCategory);
  opt_str "icon_url" 500;
  opt_str "external_url" 500;
  Field "is_embeddable" TBool |> with_default (VBool false);
  Field "embed_config" TDict |> with_default (VDict []);
  Field "is_active" TBool |> with_default (VBool true);
  created_at_field
].

Definition ProjectTool : Model := mkModel (Some "project_tools") [
  id_field;
  Field "project_id" TInt |> with_foreign_key "projects.id";
  Field "tool_id" TInt |> with_foreign_key "tools.id";
  Field "is_enabled" TBool |> with_default (VBool true);
  Field "configuration" TDict |> with_default (VDict []);
  Field "required_roles" TListStr |> with_default (VList []);
  created_at_field
].

Definition NewStarterRequest : Model := mkModel (Some "new_starter_requests") [
  id_field;
  Field "project_id" TInt |> with_foreign_key "projects.id";
  Field "manager_id" TInt |> with_foreign_key "users.id";
  Field "starter_email" TStr |> with_max_length 255;
  Field "starter_first_name" TStr |> with_max_length 100;
  Field "starter_last_name" TStr |> with_max_length 100;
  Field "start_date" TDatetime;
  Field "role" (TEnum EUserRole)
    |> with_default (VEnum EUserRole (UserRole.value UserRole.TEAM_MEMBER));
  opt_str "department" 100;
  opt_str "position" 100;
  opt_str "line_manager" 200;
  opt_str "notes" 1000;
  Field "status" (TEnum EOnboardingStatus)
    |> with_default (VEnum EOnboardingStatus (OnboardingStatus.value OnboardingStatus.PENDING));
  created_at_field;
  updated_at_field
].

Definition OnboardingDetails : Model := mkModel (Some "onboarding_details") [
  id_field;
  Field "request_id" TInt |> with_foreign_key "new_starter_requests.id" |> with_unique;
  Field "new_starter_id" TInt |> with_foreign_key "users.id";
  opt_str "phone_number" 20;
  opt_str "address" 500;
  opt_str "emergency_contact_name" 200;
  opt_str "emergency_contact_phone" 20;
  opt_str "previous_experience" 2000;
  Field "skills" TListStr |> with_default (VList []);
  Field "certifications" TListStr |> with_default (VList []);
  opt_str "accessibility_requirements" 1000;
  opt_str "dietary_requirements" 500;
  Field "additional_info" TDict |> with_default (VDict []);
  Field "completed_at" TDatetime |> with_default_factory_utcnow
].

Definition InductionChapter : Model := mkModel (Some "induction_chapters") [
  id_field;
  Field "project_id" TInt |> with_foreign_key "projects.id";
  Field "title" TStr |> with_max_length 200;
  opt_str "description" 1000;
  Field "order_index" TInt |> with_default (VInt 0);
  Field "is_required" TBool |> with_default (VBool true);
  Field "is_active" TBool |> with_default (VBool true);
  created_at_field
].

Definition InductionSection : Model := mkModel (Some "induction_sections") [
  id_field;
  Field "chapter_id" TInt |> with_foreign_key "induction_chapters.id";
  Field "title" TStr |> with_max_length 200;
  Field "order_index" TInt |> with_default (VInt 0);
  Field "is_active" TBool |> with_default (VBool true);
  created_at_field
].

Definition InductionContent : Model := mkModel (Some "induction_content") [
  id_field;
  Field "section_id" TInt |> with_foreign_key "induction_sections.id";
  Field "content_type" (TEnum EContentType);
  opt_str "title" 200;
  opt_str "content" 10000;
  opt_str "url" 500;
  opt_str "file_path" 500;
  opt_str "embed_code" 2000;
  Field "content_metadata" TDict |> with_default (VDict []);
  Field "order_index" TInt |> with_default (VInt 0);
  Field "is_active" TBool |> with_default (VBool true);
  created_at_field
].

(** [Decimal = Field(default=Decimal("0"), max_digits=5, decimal_places=2)] *)
Definition completion_percentage : FieldInfo :=
  Field "completion_percentage" TDecimal
    |> with_default (VDecimal (mkDecimal false [0] 0))
    |> with_max_digits 5 |> with_decimal_places 2.

Definition InductionProgress : Model := mkModel (Some "induction_progress") [
  id_field;
  Field "user_id" TInt |> with_foreign_key "users.id";
  Field "chapter_id" TInt |> with_foreign_key "induction_chapters.id";
  Field "status" (TEnum EInductionStatus)
    |> with_default (VEnum EInductionStatus (InductionStatus.value InductionStatus.NOT_STARTED));
  Field "started_at" TDatetime |> Optional |> with_default VNone;
  Field "completed_at" TDatetime |> Optional |> with_default VNone;
  completion_percentage;
  opt_str "notes" 1000
].

Definition Dashboard : Model := mkModel (Some "dashboards") [
  id_field;
  Field "project_id" TInt |> with_foreign_key "projects.id";
  Field "name" TStr |> with_max_length 200;
  Field "type" TStr |> with_max_length 50;
  Field "configuration" TDict |> with_default (VDict []);
  Field "required_roles" TListStr |> with_default (VList []);
  Field "is_active" TBool |> with_default (VBool true);
  created_at_field
].

(** Non-persistent schemas ([table=False]). *)

Definition UserCreate : Model := mkModel None [
  Field "email" TStr |> with_max_length 255;
  Field "first_name" TStr |> with_max_length 100;
  Field "last_name" TStr |> with_max_length 100
].

Definition UserUpdate : Model := mkModel None [
  opt_str "first_name" 100;
  opt_str "last_name" 100;
  Field "is_active" TBool |> Optional |> with_default VNone
].

Definition ProjectCreate : Model := mkModel None [
  Field "name" TStr |> with_max_length 200;
  Field "description" TStr |> with_default (VStr "") |> with_max_length 2000;
  Field "code" TStr |> with_max_length 20;
  Field "start_date" TDatetime |> Optional |> with_default VNone;
  Field "end_date" TDatetime |> Optional |> with_default VNone
].

Definition ProjectUpdate : Model := mkModel None [
  opt_str "name" 200;
  opt_str "description" 2000;
  Field "start_date" TDatetime |> Optional |> with_default VNone;
  Field "end_date" TDatetime |> Optional |> with_default VNone;
  Field "is_active" TBool |> Optional |> with_default VNone;
  Field "settings" TDict |> Optional |> with_default VNone
].

Definition ProjectMembershipCreate : Model := mkModel None [
  Field "user_id" TInt;
  Field "project_id" TInt;
  Field "role" (TEnum EUserRole)
    |> with_default (VEnum EUserRole (UserRole.value UserRole.TEAM_MEMBER))
].

Definition ToolCreate : Model := mkModel None [
  Field "name" TStr |> with_max_length 200;
  Field "description" TStr |> with_default (VStr "") |> with_max_length 1000;
  Field "category" (TEnum EToolCategory);
  opt_str "icon_url" 500;
  opt_str "external_url" 500;
  Field "is_embeddable" TBool |> with_default (VBool false);
  Field "embed_config" TDict |> with_default (VDict [])
].

Definition NewStarterRequestCreate : Model := mkModel None [
  Field "project_id" TInt;
  Field "starter_email" TStr |> with_max_length 255;
  Field "starter_first_name" TStr |> with_max_length 100;
  Field "starter_last_name" TStr |> with_max_length 100;
  Field "start_date" TDatetime;
  Field "role" (TEnum EUserRole)
    |> with_default (VEnum EUserRole (UserRole.value UserRole.TEAM_MEMBER));
  opt_str "department" 100;
  opt_str "position" 100;
  opt_str "line_manager" 200;
  opt_str "notes" 1000
].

Definition OnboardingDetailsCreate : Model := mkModel None [
  Field "request_id" TInt;
  opt_str "phone_number" 20;
  opt_str "address" 500;
  opt_str "emergency_contact_name" 200;
  opt_str "emergency_contact_phone" 20;
  opt_str "previous_experience" 2000;
  Field "skills" TListStr |> with_default (VList []);
  Field "certifications" TListStr |> with_default (VList []);
  opt_str "accessibility_requirements" 1000;
  opt_str "dietary_requirements" 500;
  Field "additional_info" TDict |> with_default (VDict [])
].

Definition InductionChapterCreate : Model := mkModel None [
  Field "project_id" TInt;
  Field "title" TStr |> with_max_length 200;
  opt_str "description" 1000;
  Field "order_index" TInt |> with_default (VInt 0);
  Field "is_required" TBool |> with_default (VBool true)
].

Definition InductionSectionCreate : Model := mkModel None [
  Field "chapter_id" TInt;
  Field "title" TStr |> with_max_length 200;
  Field "order_index" TInt |> with_default (VInt 0)
].

Definition InductionContentCreate : Model := mkModel None [
  Field "section_id" TInt;
  Field "content_type" (TEnum EContentType);
  opt_str "title" 200;
  opt_str "content" 10000;
  opt_str "url" 500;
  opt_str "file_path" 500;
  opt_str "embed_code" 2000;
  Field "content_metadata" TDict |> with_default (VDict []);
  Field "order_index" TInt |> with_default (VInt 0)
].

Definition DashboardCreate : Model := mkModel None [
  Field "project_id" TInt;
  Field "name" TStr |> with_max_length 200;
  Field "type" TStr |> with_max_length 50;
  Field "configuration" TDict |> with_default (VDict []);
  Field "required_roles" TListStr |> with_default (VList [])
].

(** The persisted entities and the validation shapes, in source order. *)
Definition tables : list Model :=
  [User; Project; ProjectMembership; Tool; ProjectTool; NewStarterRequest;
   OnboardingDetails; InductionChapter; InductionSection; InductionContent;
   InductionProgress; Dashboard].

Definition schemas : list Model :=
  [UserCreate; UserUpdate; ProjectCreate; ProjectUpdate; ProjectMembershipCreate;
   ToolCreate; NewStarterRequestCreate; OnboardingDetailsCreate;
   InductionChapterCreate; InductionSectionCreate; InductionContentCreate;
   DashboardCreate].

Definition models : list Model := tables ++ schemas.

(** ** Validation

    The interpreter of the declared constraints, [Model.model_validate] for
    a table model as for a shape.  Payload values are taken in their Python
    types; a keyword argument enforces what it names.  As the validation
    library does, a field is checked constraint after constraint and
    reports its first failure, and the failures of all fields are gathered
    in one [ValidationError]. *)

Inductive result (E A : Type) : Type :=
| Ok (a : A)
| Err (e : E).
Arguments Ok {E A} a.
Arguments Err {E A} e.

(** Why a field was refused.  [StringTooLong] is the spec's "length",
    [PatternMismatch] its "format", [EnumInvalid] its "invalid enum
    value". *)
Inductive reason : Type :=
| Missing
| WrongType
| StringTooLong
| PatternMismatch
| EnumInvalid
| DecimalMaxDigits
| DecimalMaxPlaces
| DecimalWholeDigits.

Global Instance reason_eq_dec : EqDecision reason.
Proof. solve_decision. Defined.

(** A [ValidationError]: the refused fields with the reason of each. *)
Definition ValidationError : Type := list (string * reason).

Definition check_str (f : FieldInfo) (s : string) : result reason value :=
  if match max_length f with Some n => n <? String.length s | None => false end
  then Err StringTooLong
  else if match regex f with Some r => negb (re_match r s) | None => false end
  then Err PatternMismatch
  else Ok (VStr s).

(** [Decimal.normalize]: trailing zeros of the coefficient move into the
    exponent, and every zero becomes [0E0]. *)
Fixpoint strip_zeros (rev_digits : list nat) (e : Z) : list nat * Z :=
  match rev_digits with
  | 0 :: rest => strip_zeros rest (e + 1)
  | _ => (rev_digits, e)
  end.

Definition normalize (d : Decimal) : Decimal :=
  if forallb (Nat.eqb 0) (digits d) then mkDecimal (sign d) [0] 0
  else let '(rd, e) := strip_zeros (rev (digits d)) (exponent d) in
       mkDecimal (sign d) (rev rd) e.

(** Number of decimal places and of digits of a decimal, as the validation
    of [max_digits] and [decimal_places] counts them. *)
Definition decimals_of (d : Decimal) : nat :=
  if (0 <=? exponent d)%Z then 0 else Z.to_nat (- exponent d).
Definition digits_of (d : Decimal) : nat :=
  if (0 <=? exponent d)%Z then length (digits d) + Z.to_nat (exponent d)
  else max (length (digits d)) (Z.to_nat (- exponent d)).

Definition exceeds (bound : option nat) (n : nat) : bool :=
  match bound with Some b => b <? n | None => false end.

Definition check_decimal (f : FieldInfo) (d : Decimal) : result reason value :=
  let n := normalize d in
  if exceeds (max_digits f) (digits_of d) && exceeds (max_digits f) (digits_of n)
  then Err DecimalMaxDigits
  else if exceeds (decimal_places f) (decimals_of d)
          && exceeds (decimal_places f) (decimals_of n)
  then Err DecimalMaxPlaces
  else
    match max_digits f, decimal_places f with
    | Some md, Some dp =>
        if md - dp <? digits_of d - decimals_of d
        then Err DecimalWholeDigits
        else Ok (VDecimal d)
    | _, _ => Ok (VDecimal d)
    end.

(** [Decimal(z)] for an integer [z]. *)
Fixpoint uint_digits (u : Init.Decimal.uint) : list nat :=
  match u with
  | Init.Decimal.Nil => []
  | Init.Decimal.D0 u => 0 :: uint_digits u
  | Init.Decimal.D1 u => 1 :: uint_digits u
  | Init.Decimal.D2 u => 2 :: uint_digits u
  | Init.Decimal.D3 u => 3 :: uint_digits u
  | Init.Decimal.D4 u => 4 :: uint_digits u
  | Init.Decimal.D5 u => 5 :: uint_digits u
  | Init.Decimal.D6 u => 6 :: uint_digits u
  | Init.Decimal.D7 u => 7 :: uint_digits u
  | Init.Decimal.D8 u => 8 :: uint_digits u
  | Init.Decimal.D9 u => 9 :: uint_digits u
  end.

Definition Decimal_of_int (z : Z) : Decimal :=
  mkDecimal (z <? 0)%Z (uint_digits (N.to_uint (Z.abs_N z))) 0.

Definition check_enum (c : enum_class) (s : string) : result reason value :=
  if bool_decide (s ∈ enum_values c) then Ok (VEnum c s) else Err EnumInvalid.

Definition check_value (f : FieldInfo) (v : value) : result reason value :=
  match v with
  | VNone => if optional f then Ok VNone else Err WrongType
  | _ =>
      match annotation f, v with
      | TInt, VInt _ => Ok v
      | TBool, VBool _ => Ok v
      | TDatetime, VDatetime _ => Ok v
      | TStr, VStr s => check_str f s
      | TDecimal, VDecimal d => check_decimal f d
      | TDecimal, VInt z => check_decimal f (Decimal_of_int z)
      | TEnum c, VStr s => check_enum c s
      | TEnum c, VEnum c' s =>
          if bool_decide (c' = c) then check_enum c s else Err EnumInvalid
      | TDict, VDict _ => Ok v
      | TListStr, VList _ => Ok v
      | _, _ => Err WrongType
      end
  end.

(** A payload is the mapping handed to the model: the keys it holds are
    the fields explicitly present. *)
Abbreviation payload := (gmap string value).

(** What a field contributes: the checked value of the key when present,
    else the declared default ([now] is what [datetime.utcnow] returns),
    else the field is missing. *)
Definition field_outcome (now : Z) (p : payload) (f : FieldInfo)
  : result reason value :=
  match p !! name f with
  | Some v => check_value f v
  | None =>
      match default f with
      | Default d => Ok d
      | DefaultFactoryUtcnow => Ok (VDatetime now)
      | NoDefault => Err Missing
      end
  end.

(** A validated instance: the value of every field, and which of them were
    explicitly given ([model_fields_set]). *)
Record Instance : Type := mkInstance {
  values : gmap string value;
  fields_set : gset string
}.

Definition errors (m : Model) (now : Z) (p : payload) : ValidationError :=
  omap (λ f, match field_outcome now p f with
             | Err r => Some (name f, r)
             | Ok _ => None
             end) (fields m).

Definition validated (m : Model) (now : Z) (p : payload) : list (string * value) :=
  omap (λ f, match field_outcome now p f with
             | Ok v => Some (name f, v)
             | Err _ => None
             end) (fields m).

(** The instance built from a payload.  Keys of the payload that are not
    fields of the model are ignored. *)
Definition instance_of (m : Model) (now : Z) (p : payload) : Instance :=
  mkInstance (list_to_map (validated m now p))
    (dom p ∩ list_to_set (field_names m)).

Definition validate (m : Model) (now : Z) (p : payload)
  : result ValidationError Instance :=
  match errors m now p with
  | [] => Ok (instance_of m now p)
  | es => Err es
  end.

(** ** Applying an update shape *)

(** [model_dump(exclude_unset=True)]: the fields explicitly given. *)
Definition dump_exclude_unset (u : Instance) : gmap string value :=
  filter (λ kv, kv.1 ∈ fields_set u) (values u).

(** Modelled from the spec: the function that applies a validated update
    shape to a persisted row is not part of [app/models.py].  Following
    section 4.1 ("only fields explicitly present in the update payload
    overwrite the persisted row; absent fields leave the stored value
    untouched"), every explicitly given field is assigned to the row. *)
Definition apply_update (u : Instance) (r : gmap string value) : gmap string value :=
  dump_exclude_unset u ∪ r.

(** ** Persistence *)

(** Modelled from the spec: the store behind the models, which
    [app/models.py] does not define (section 6: "a persistence layer that
    maps each entity to a table").  A database holds the rows of each
    table, by [__tablename__]. *)
Abbreviation database := (gmap string (list (gmap string value))).

(** Modelled from the spec: the two error kinds of persistence of section
    7, each with the field at fault; [UnmappedError] is the attempt to
    persist a shape that is no table. *)
Inductive PersistenceError : Type :=
| ConflictError (field : string)
| ReferenceError (field : string)
| UnmappedError.

Global Instance PersistenceError_eq_dec : EqDecision PersistenceError.
Proof. solve_decision. Defined.

(** Equality of two column values as keys; the unique and referenced
    columns of the source are [str] and [int] columns, and a null never
    equals anything. *)
Definition same_key (a b : value) : bool :=
  match a, b with
  | VStr x, VStr y => String.eqb x y
  | VInt x, VInt y => Z.eqb x y
  | _, _ => false
  end.

(** ["users.id"] names table [users], column [id]. *)
Fixpoint split_dot (s : string) : string * string :=
  match s with
  | EmptyString => (EmptyString, EmptyString)
  | String c s' =>
      if Ascii.eqb c "." then (EmptyString, s')
      else let '(t, col) := split_dot s' in (String c t, col)
  end.

Definition holds_key (col : string) (v : value) (r : gmap string value) : bool :=
  match r !! col with
  | Some w => same_key w v
  | None => false
  end.

Definition referenced (db : database) (fk : string) (v : value) : bool :=
  let '(t, col) := split_dot fk in existsb (holds_key col v) (db !!! t).

(** Modelled from the spec: "fields marked unique must fail at persistence
    time with a [ConflictError] if a colliding value is inserted". *)
Definition unique_violations (m : Model) (t : string) (db : database)
    (r : gmap string value) : list PersistenceError :=
  omap (λ f,
    match r !! name f with
    | Some v =>
        if unique f && existsb (holds_key (name f) v) (db !!! t)
        then Some (ConflictError (name f)) else None
    | None => None
    end) (fields m).

(** Modelled from the spec: "foreign-key fields must reference an existing
    row of the target entity; a dangling reference fails with a
    [ReferenceError] at persistence time". *)
Definition reference_violations (m : Model) (db : database)
    (r : gmap string value) : list PersistenceError :=
  omap (λ f,
    match foreign_key f, r !! name f with
    | Some fk, Some VNone => None
    | Some fk, Some v =>
        if referenced db fk v then None else Some (ReferenceError (name f))
    | _, _ => None
    end) (fields m).

Definition row_id (r : gmap string value) : Z :=
  match r !! "id" with
  | Some (VInt i) => i
  | _ => 0
  end.

(** Modelled from the spec: the [id] assigned on insert is fresh, one past
    the largest stored. *)
Definition fresh_id (rows : list (gmap string value)) : Z :=
  Z.succ (foldr Z.max 0%Z (row_id <$> rows)).

(** Modelled from the spec: the persistence layer is not part of
    [app/models.py]; the source only declares [unique=True] and
    [foreign_key=...].  Following sections 4.1 and 6, persisting a row
    enforces every declared unique and foreign-key constraint against the
    stored rows, fails with a [ConflictError] or [ReferenceError] per
    violated constraint and stores nothing, and otherwise assigns a fresh
    [id] and stores the row.  The database is threaded through. *)
Definition insert (m : Model) (r : gmap string value) (db : database)
  : database * result (list PersistenceError) Z :=
  match tablename m with
  | None => (db, Err [UnmappedError])
  | Some t =>
      match unique_violations m t db r ++ reference_violations m db r with
      | [] =>
          let i := fresh_id (db !!! t) in
          (<[t := (db !!! t) ++ [<["id" := VInt i]> r]]> db, Ok i)
      | es => (db, Err es)
      end
  end.

(** ** Auxiliary definitions

    Decidable checks over the declarations, sample payloads and rows, and
    the predicates in which the properties below are stated. *)

(** No two fields of the model share a name. *)
Definition distinct_names (m : Model) : bool := bool_decide (NoDup (field_names m)).

(** The field of a model with a given name. *)
Definition get_field (m : Model) (k : string) : option FieldInfo :=
  find (λ f, String.eqb (name f) k) (fields m).

(** Whether a character occurs in a string. *)
Fixpoint has_char (c : ascii) (s : string) : bool :=
  match s with
  | EmptyString => false
  | String a s' => Ascii.eqb a c || has_char c s'
  end.

(** A field that declares a maximum length is a string field. *)
Definition bounded_is_str (f : FieldInfo) : bool :=
  match max_length f, annotation f with
  | Some _, TStr => true
  | Some _, _ => false
  | None, _ => true
  end.

Fixpoint repeat_char (c : ascii) (n : nat) : string :=
  match n with
  | O => EmptyString
  | S k => String c (repeat_char c k)
  end.

(** A string of a given length that a bounded field accepts: letters, and
    for a field with the email pattern letters followed by [@b.c]. *)
Definition sample (f : FieldInfo) (L : nat) : string :=
  match regex f with
  | None => repeat_char "a" L
  | Some _ => repeat_char "a" (L - 4) +:+ "@b.c"
  end.

Definition sample_accepted (f : FieldInfo) : bool :=
  match max_length f with
  | Some L =>
      (String.length (sample f L) =? L)
      && match check_str f (sample f L) with Ok _ => true | Err _ => false end
  | None => true
  end.

Ltac solve_elem :=
  repeat first [apply list_elem_of_here | apply list_elem_of_further].


Definition starter_without_at : payload :=
  list_to_map [("project_id", VInt 1%Z);
               ("starter_email", VStr "no-at-sign");
               ("starter_first_name", VStr "Sam");
               ("starter_last_name", VStr "Roe");
               ("start_date", VDatetime 0%Z)].

(** A field is enumerated exactly when it bears one of the four names. *)
Definition enum_named (f : FieldInfo) : bool :=
  match annotation f with
  | TEnum _ =>
      bool_decide (name f ∈ ["role"; "category"; "status"; "content_type"])
  | _ =>
      negb (bool_decide (name f ∈ ["role"; "category"; "status"; "content_type"]))
  end.

Definition membership_payload (role : string) : payload :=
  list_to_map [("user_id", VInt 1); ("project_id", VInt 1); ("role", VStr role)].

(** What a validated instance holds, handed on as a payload
    ([model_dump()]). *)
Definition dump (r : result ValidationError Instance) : payload :=
  match r with
  | Ok u => values u
  | Err _ => ∅
  end.

Global Instance Decimal_eq_dec : EqDecision Decimal.
Proof. solve_decision. Defined.

(** A test of equality of two values that answers [true] only on equal
    values; of the JSON maps it recognises the empty one. *)
Definition value_eqb (a b : value) : bool :=
  match a, b with
  | VNone, VNone => true
  | VBool x, VBool y => Bool.eqb x y
  | VInt x, VInt y => Z.eqb x y
  | VStr x, VStr y => String.eqb x y
  | VDatetime x, VDatetime y => Z.eqb x y
  | VDecimal x, VDecimal y => bool_decide (x = y)
  | VEnum c x, VEnum c' y => bool_decide (c = c') && String.eqb x y
  | VDict [], VDict [] => true
  | VList x, VList y => bool_decide (x = y)
  | _, _ => false
  end.

Definition default_is (f : FieldInfo) (d : value) : bool :=
  match default f with
  | Default v => value_eqb v d
  | _ => false
  end.

(** The create shapes: the validation shapes but [UserUpdate] and
    [ProjectUpdate]. *)
Definition creates : list Model :=
  [UserCreate; ProjectCreate; ProjectMembershipCreate; ToolCreate;
   NewStarterRequestCreate; OnboardingDetailsCreate; InductionChapterCreate;
   InductionSectionCreate; InductionContentCreate; DashboardCreate].

(** The defaults by field name. *)
Definition named_defaults : list (string * value) :=
  [("is_active", VBool true);
   ("role", VEnum EUserRole (UserRole.value UserRole.TEAM_MEMBER));
   ("settings", VDict []);
   ("embed_config", VDict []);
   ("configuration", VDict []);
   ("content_metadata", VDict []);
   ("additional_info", VDict []);
   ("skills", VList []);
   ("certifications", VList []);
   ("required_roles", VList [])].

(** The default of [status], by table. *)
Definition status_defaults : list (string * value) :=
  [("new_starter_requests",
     VEnum EOnboardingStatus (OnboardingStatus.value OnboardingStatus.PENDING));
   ("induction_progress",
     VEnum EInductionStatus (InductionStatus.value InductionStatus.NOT_STARTED))].

(** The field declares the default listed for its name, if any. *)
Definition named_default_declared (m : Model) (f : FieldInfo) : bool :=
  forallb (λ kd, implb (String.eqb (name f) (fst kd)) (default_is f (snd kd)))
    named_defaults
  && forallb (λ td,
       implb (String.eqb (name f) "status"
              && match tablename m with
                 | Some t => String.eqb t (fst td)
                 | None => false
                 end)
             (default_is f (snd td)))
     status_defaults.

Definition membership_without_role : payload :=
  list_to_map [("user_id", VInt 1); ("project_id", VInt 1)].

(** A value is accepted for [completion_percentage] when no payload
    holding it has a failure reported for the field, and rejected when
    every payload holding it fails validation on the field. *)
Definition accepts_percentage (v : value) : Prop :=
  ∀ now (p : payload), p !! "completion_percentage" = Some v →
    ∀ r, ("completion_percentage", r) ∉ errors InductionProgress now p.

Definition rejects_percentage (v : value) : Prop :=
  ∀ now (p : payload), p !! "completion_percentage" = Some v →
    ∃ es r, validate InductionProgress now p = Err es ∧
            ("completion_percentage", r) ∈ es.

(** The number a coefficient denotes, and a decimal being above 100. *)
Definition coefficient (ds : list nat) : Z :=
  foldl (λ acc x, 10 * acc + Z.of_nat x)%Z 0%Z ds.


(** The fields of the update shapes are plainly typed: the checked value is
    the value given. *)
Definition plain (f : FieldInfo) : bool :=
  match annotation f with
  | TEnum _ | TDecimal => false
  | _ => true
  end.

Definition stored_user : gmap string value :=
  list_to_map [("id", VInt 1); ("email", VStr "a@example.com");
               ("first_name", VStr "Al"); ("last_name", VStr "Lee");
               ("is_active", VBool true); ("created_at", VDatetime 0);
               ("updated_at", VNone)].

Definition stored_project : gmap string value :=
  list_to_map [("id", VInt 1); ("name", VStr "Portal"); ("description", VStr "");
               ("code", VStr "PRJ1"); ("is_active", VBool true);
               ("created_by_id", VInt 1)].

Definition recode_payload : payload :=
  list_to_map [("code", VStr "PRJ2"); ("name", VStr "Renamed")].

(** The rows stored for a model. *)
Definition stored (m : Model) (db : database) : list (gmap string value) :=
  match tablename m with
  | Some t => db !!! t
  | None => []
  end.

(** The columns the source marks unique. *)
Definition unique_columns : list (Model * string) :=
  [(User, "email"); (Project, "code"); (OnboardingDetails, "request_id")].

(** Table and name of every field declared [unique=True]. *)
Definition declared_unique : list (option string * string) :=
  flat_map (λ m, (λ f, (tablename m, name f)) <$> filter (λ f, unique f = true) (fields m))
    tables.

Definition alice : gmap string value :=
  list_to_map [("email", VStr "a@example.com"); ("first_name", VStr "Al");
               ("last_name", VStr "Lee"); ("is_active", VBool true)].

Definition alice_again : gmap string value :=
  list_to_map [("email", VStr "a@example.com"); ("first_name", VStr "Ann");
               ("last_name", VStr "Low"); ("is_active", VBool true)].

Definition project_row (nm : string) : gmap string value :=
  list_to_map [("name", VStr nm); ("code", VStr "PRJ1");
               ("created_by_id", VInt 1); ("is_active", VBool true)].

Definition dangling_details : gmap string value :=
  list_to_map [("request_id", VInt 999999); ("new_starter_id", VInt 1)].

(** The declared default of a field passes the field's own check, and a
    default drawn from the clock belongs to a [datetime] field. *)
Definition default_valid (f : FieldInfo) : bool :=
  match default f with
  | Default d =>
      match check_value f d with
      | Ok w => value_eqb w d
      | Err _ => false
      end
  | DefaultFactoryUtcnow =>
      match annotation f with
      | TDatetime => true
      | _ => false
      end
  | NoDefault => true
  end.

(** A field is [Optional] exactly when its default is [None]. *)
Definition optional_iff_none (f : FieldInfo) : bool :=
  Bool.eqb (optional f) (default_is f VNone).

Global Instance ftype_eq_dec : EqDecision ftype.
Proof. solve_decision. Defined.

(** The foreign key of a field names a declared table and, in it, the
    primary-key column, of the type of the field. *)
Definition fk_target_declared (f : FieldInfo) : bool :=
  match foreign_key f with
  | None => true
  | Some fk =>
      let '(tn, col) := split_dot fk in
      existsb (λ t,
        bool_decide (tablename t = Some tn)
        && existsb (λ g, String.eqb (name g) col && primary_key g
                         && bool_decide (annotation g = annotation f))
             (fields t)) tables
  end.

(** The primary key of a table is its field [id], and no other. *)
Definition pk_is_id (m : Model) : bool :=
  forallb (λ f, Bool.eqb (primary_key f) (String.eqb (name f) "id")) (fields m)
  && match get_field m "id" with
     | Some f => primary_key f && optional f && default_is f VNone
                 && bool_decide (annotation f = TInt)
     | None => false
     end.

(** A shape declares no table and no database constraint. *)
Definition unconstrained (m : Model) : bool :=
  bool_decide (tablename m = None)
  && forallb (λ f, negb (primary_key f) && negb (unique f)
                   && bool_decide (foreign_key f = None)) (fields m).

(** Each create shape with the table it is the shape of. *)
Definition create_tables : list (Model * Model) :=
  [(UserCreate, User); (ProjectCreate, Project);
   (ProjectMembershipCreate, ProjectMembership); (ToolCreate, Tool);
   (NewStarterRequestCreate, NewStarterRequest);
   (OnboardingDetailsCreate, OnboardingDetails);
   (InductionChapterCreate, InductionChapter);
   (InductionSectionCreate, InductionSection);
   (InductionContentCreate, InductionContent);
   (DashboardCreate, Dashboard)].

(** Each update shape with its table. *)
Definition update_tables : list (Model * Model) :=
  [(UserUpdate, User); (ProjectUpdate, Project)].

(** Two fields are checked alike: same annotation, same optionality, same
    bounds, and no pattern on either. *)
Definition same_constraints (f g : FieldInfo) : bool :=
  bool_decide (annotation f = annotation g)
  && Bool.eqb (optional f) (optional g)
  && bool_decide (max_length f = max_length g)
  && match regex f, regex g with
     | None, None => true
     | _, _ => false
     end
  && bool_decide (max_digits f = max_digits g)
  && bool_decide (decimal_places f = decimal_places g).

Definition same_default (f g : FieldInfo) : bool :=
  match default f, default g with
  | NoDefault, NoDefault => true
  | Default a, Default b => value_eqb a b
  | DefaultFactoryUtcnow, DefaultFactoryUtcnow => true
  | _, _ => false
  end.

(** A field of a shape is a column of the table, of the same type and
    maximum length. *)
Definition column_of (t : Model) (f : FieldInfo) : bool :=
  existsb (λ g, String.eqb (name g) (name f)
                && bool_decide (annotation g = annotation f)
                && bool_decide (max_length g = max_length f)) (fields t).

(** A field of a create shape is, moreover, as optional as the column and
    declares the same default. *)
Definition create_column_of (t : Model) (f : FieldInfo) : bool :=
  existsb (λ g, String.eqb (name g) (name f)
                && bool_decide (annotation g = annotation f)
                && bool_decide (max_length g = max_length f)
                && Bool.eqb (optional g) (optional f)
                && same_default g f) (fields t).

(** The required columns that no create shape carries. *)
Definition server_side : list (option string * string) :=
  [(Some "projects", "created_by_id");
   (Some "new_starter_requests", "manager_id");
   (Some "onboarding_details", "new_starter_id")].

(** A column of the table is either fed by a field of the shape that is
    checked alike, or has a default, or is one of the server-side columns;
    the email of [User], which alone carries a pattern, is set apart. *)
Definition fed_by (s t : Model) (g : FieldInfo) : bool :=
  if bool_decide (name g ∈ field_names s)
  then existsb (λ f, String.eqb (name f) (name g)
                     && (same_constraints f g
                         || (bool_decide (tablename t = Some "users")
                             && String.eqb (name g) "email"
                             && bool_decide (annotation f = TStr)
                             && bool_decide (annotation g = TStr)
                             && Bool.eqb (optional f) (optional g)
                             && bool_decide (max_length f = max_length g))))
         (fields s)
  else match default g with
       | NoDefault => bool_decide ((tablename t, name g) ∈ server_side)
       | _ => true
       end.





(** The same decimal of the opposite sign. *)
Definition negate (d : Decimal) : Decimal :=
  mkDecimal (negb (sign d)) (digits d) (exponent d).

(** The magnitude of the decimal is below 1000. *)
Definition below_1000 (d : Decimal) : Prop :=
  if (0 <=? exponent d)%Z
  then (coefficient (digits d) * 10 ^ exponent d < 1000)%Z
  else (coefficient (digits d) < 1000 * 10 ^ (- exponent d))%Z.

(** The columns that only the tables declare. *)
Definition server_managed : list string := ["id"; "created_at"; "updated_at"].

Ltac enum_round_trip value members :=
  split; [intros m; destruct m; reflexivity |];
  split;
  [ intros s m H; apply find_some in H as [_ H]; by apply String.eqb_eq in H
  | intros s; split;
    [ intros (m & -> & _)%list_elem_of_fmap; destruct m; vm_compute; eauto
    | intros [m H]; apply find_some in H as [Hin H];
      apply String.eqb_eq in H as <-; apply list_elem_of_fmap;
      exists m; split; [done | by apply list_elem_of_In] ] ].

Definition project_create_payload : payload :=
  list_to_map [("name", VStr "Portal"); ("code", VStr "PRJ1")].

(** ** Relationships

    The [Relationship(back_populates=...)] attributes of the tables: the
    class that declares the attribute, its name, the class it is annotated
    with, whether the annotation is a [List], whether it is [Optional],
    and the attribute named on the other side. *)
Record Relationship : Type := mkRelationship {
  owner : Model;
  attr : string;
  target : Model;
  is_list : bool;
  is_optional : bool;
  back_populates : string
}.

Definition to_many (o : Model) (a : string) (t : Model) (b : string) : Relationship :=
  mkRelationship o a t true false b.
Definition to_one (o : Model) (a : string) (t : Model) (b : string) : Relationship :=
  mkRelationship o a t false false b.
Definition to_optional (o : Model) (a : string) (t : Model) (b : string)
  : Relationship :=
  mkRelationship o a t false true b.

Definition relationships : list Relationship := [
  to_many User "project_memberships" ProjectMembership "user";
  to_many User "created_projects" Project "created_by";
  to_many User "new_starter_requests" NewStarterRequest "manager";
  to_many User "onboarding_details" OnboardingDetails "new_starter";
  to_many User "induction_progress" InductionProgress "user";
  to_one Project "created_by" User "created_projects";
  to_many Project "memberships" ProjectMembership "project";
  to_many Project "tools" ProjectTool "project";
  to_many Project "new_starter_requests" NewStarterRequest "project";
  to_many Project "induction_content" InductionChapter "project";
  to_many Project "dashboards" Dashboard "project";
  to_one ProjectMembership "user" User "project_memberships";
  to_one ProjectMembership "project" Project "memberships";
  to_many Tool "project_tools" ProjectTool "tool";
  to_one ProjectTool "project" Project "tools";
  to_one ProjectTool "tool" Tool "project_tools";
  to_one NewStarterRequest "project" Project "new_starter_requests";
  to_one NewStarterRequest "manager" User "new_starter_requests";
  to_optional NewStarterRequest "onboarding_details" OnboardingDetails "request";
  to_one OnboardingDetails "request" NewStarterRequest "onboarding_details";
  to_one OnboardingDetails "new_starter" User "onboarding_details";
  to_one InductionChapter "project" Project "induction_content";
  to_many InductionChapter "sections" InductionSection "chapter";
  to_one InductionSection "chapter" InductionChapter "sections";
  to_many InductionSection "content_items" InductionContent "section";
  to_one InductionContent "section" InductionSection "content_items";
  to_one InductionProgress "user" User "induction_progress";
  to_one Dashboard "project" Project "dashboards"
].

(** The table name of a model, [""] for a shape. *)
Definition table_of (m : Model) : string :=
  match tablename m with
  | Some t => t
  | None => ""
  end.

(** The relationship has its mirror image: on the target, the attribute
    that [back_populates] names points back at the owner and names this
    attribute in return, and the two are not both lists. *)
Definition mirrored (r : Relationship) : bool :=
  existsb (λ r',
    String.eqb (table_of (owner r')) (table_of (target r))
    && String.eqb (table_of (target r')) (table_of (owner r))
    && String.eqb (attr r') (back_populates r)
    && String.eqb (back_populates r') (attr r)
    && negb (is_list r && is_list r')) relationships.

(** A relationship to one required row rests on the column [<attr>_id],
    a foreign key to the [id] of the target's table. *)
Definition backed_by_column (r : Relationship) : bool :=
  if is_list r || is_optional r then true
  else existsb (λ f,
         String.eqb (name f) (attr r +:+ "_id")
         && bool_decide (foreign_key f = Some (table_of (target r) +:+ ".id")))
       (fields (owner r)).

(** A foreign-key column is the column of a relationship to one row, but
    for [InductionProgress.chapter_id]. *)
Definition navigable (m : Model) (f : FieldInfo) : bool :=
  match foreign_key f with
  | None => true
  | Some fk =>
      existsb (λ r,
        String.eqb (table_of (owner r)) (table_of m)
        && negb (is_list r)
        && String.eqb (attr r +:+ "_id") (name f)
        && String.eqb (table_of (target r) +:+ ".id") fk) relationships
      || (String.eqb (table_of m) "induction_progress"
          && String.eqb (name f) "chapter_id")
  end.

(** * Properties *)

(** ** The matcher against the denotation *)

Module RegexFacts.
Import Regex.

Lemma app_empty_inv (s1 s2 : string) : s1 +:+ s2 = "" → s1 = "" ∧ s2 = "".
Proof.
  destruct s1 as [|b s1]; [auto |].
  change (String b s1 +:+ s2) with (String b (s1 +:+ s2)). discriminate.
Qed.

Lemma nullable_sound r : nullable r = true → Matches r "".
Proof.
  induction r; simpl; intros H; try discriminate.
  - constructor.
  - apply andb_true_iff in H as [H1 H2].
    change "" with ("" +:+ ""). constructor; auto.
  - apply orb_true_iff in H as [H1 | H2];
      [apply MAltL | apply MAltR]; auto.
  - constructor.
Qed.

Lemma nullable_complete r s : Matches r s → s = "" → nullable r = true.
Proof.
  induction 1; simpl; intros Hs; try done.
  - apply app_empty_inv in Hs as [-> ->]. rewrite IHMatches1, IHMatches2; done.
  - rewrite IHMatches; done.
  - rewrite IHMatches, orb_true_r; done.
Qed.

Lemma nullable_spec r : nullable r = true ↔ Matches r "".
Proof. split; [apply nullable_sound | intros; eapply nullable_complete; eauto]. Qed.

Lemma deriv_sound c r : ∀ s, Matches (deriv c r) s → Matches r (String c s).
Proof.
  induction r; simpl; intros s H.
  - inversion H.
  - inversion H.
  - destruct (in_class cls c) eqn:E; inversion H; subst. by constructor.
  - destruct (nullable r1) eqn:E.
    + inversion H; subst.
      * inversion H3; subst.
        change (String c (s1 +:+ s2)) with (String c s1 +:+ s2).
        constructor; auto.
      * change (String c s) with ("" +:+ String c s).
        constructor; auto. by apply nullable_sound.
    + inversion H; subst.
      change (String c (s1 +:+ s2)) with (String c s1 +:+ s2).
      constructor; auto.
  - inversion H; subst; [apply MAltL | apply MAltR]; auto.
  - inversion H; subst.
    change (String c (s1 +:+ s2)) with (String c s1 +:+ s2).
    constructor; auto.
Qed.

Lemma deriv_complete r s :
  Matches r s → ∀ c s', s = String c s' → Matches (deriv c r) s'.
Proof.
  induction 1; simpl; intros a s' Hs; try discriminate.
  - injection Hs as -> <-. rewrite H. constructor.
  - destruct s1 as [|b s1].
    + change ("" +:+ s2) with s2 in Hs. subst s2.
      rewrite (nullable_complete _ _ H eq_refl).
      apply MAltR. eauto.
    + change (String b s1 +:+ s2) with (String b (s1 +:+ s2)) in Hs.
      injection Hs as -> <-.
      destruct (nullable r1); [apply MAltL |]; constructor; eauto.
  - apply MAltL; eauto.
  - apply MAltR; eauto.
  - destruct s1 as [|b s1].
    + change ("" +:+ s2) with s2 in Hs. subst s2.
      apply (IHMatches2 a s' eq_refl).
    + change (String b s1 +:+ s2) with (String b (s1 +:+ s2)) in Hs.
      injection Hs as -> <-. constructor; eauto.
Qed.

Lemma deriv_spec c r s : Matches (deriv c r) s ↔ Matches r (String c s).
Proof. split; [apply deriv_sound | intros; eapply deriv_complete; eauto]. Qed.

(** The matcher decides the denotation. *)
Lemma re_match_spec s : ∀ r, re_match r s = true ↔ Matches r s.
Proof.
  induction s as [|c s IH]; intros r; simpl.
  - apply nullable_spec.
  - rewrite IH. apply deriv_spec.
Qed.

Lemma re_match_false s r : re_match r s = false ↔ ¬ Matches r s.
Proof.
  rewrite <- re_match_spec. destruct (re_match r s); split; try done.
Qed.

End RegexFacts.

(** ** The interpreter, field by field *)

Lemma models_distinct_names : forallb distinct_names models = true.
Proof. vm_compute. reflexivity. Qed.

Lemma forallb_elem {A} (P : A → bool) (l : list A) (x : A) :
  forallb P l = true → x ∈ l → P x = true.
Proof.
  intros H Hx. apply list_elem_of_In in Hx.
  rewrite forallb_forall in H. auto.
Qed.

Lemma model_NoDup m : m ∈ models → NoDup (field_names m).
Proof.
  intros Hm. apply (bool_decide_unpack _).
  apply Is_true_true, (forallb_elem _ _ _ models_distinct_names Hm).
Qed.

Lemma tables_models m : m ∈ tables → m ∈ models.
Proof. intros H. unfold models. apply elem_of_app. by left. Qed.

Lemma schemas_models m : m ∈ schemas → m ∈ models.
Proof. intros H. unfold models. apply elem_of_app. by right. Qed.

Lemma field_name_elem m f : f ∈ fields m → name f ∈ field_names m.
Proof. intros H. unfold field_names. apply list_elem_of_fmap. eauto. Qed.

(** Two fields of one declaration with the same name are the same field. *)
Lemma field_by_name (fs : list FieldInfo) f g :
  NoDup (name <$> fs) → f ∈ fs → g ∈ fs → name f = name g → f = g.
Proof.
  induction fs as [|h fs IH]; intros Hnd Hf Hg Hn.
  - by apply elem_of_nil in Hf.
  - rewrite fmap_cons in Hnd. apply NoDup_cons in Hnd as [Hh Hnd].
    apply elem_of_cons in Hf as [-> | Hf]; apply elem_of_cons in Hg as [-> | Hg].
    + done.
    + exfalso. apply Hh. rewrite Hn. apply list_elem_of_fmap. eauto.
    + exfalso. apply Hh. rewrite <- Hn. apply list_elem_of_fmap. eauto.
    + by apply IH.
Qed.

Section validation.
Context (m : Model) (now : Z) (p : payload).

Lemma errors_elem (k : string) (r : reason) :
  (k, r) ∈ errors m now p ↔
  ∃ f, f ∈ fields m ∧ name f = k ∧ field_outcome now p f = Err r.
Proof.
  unfold errors. rewrite list_elem_of_omap. split.
  - intros (f & Hf & Ho). exists f. split; [done |].
    destruct (field_outcome now p f); naive_solver.
  - intros (f & Hf & <- & Ho). exists f. by rewrite Ho.
Qed.

(** With distinct field names, the failures reported for a field are
    those of its own check. *)
Lemma errors_field f (r : reason) :
  NoDup (field_names m) → f ∈ fields m →
  (name f, r) ∈ errors m now p ↔ field_outcome now p f = Err r.
Proof.
  intros Hnd Hf. rewrite errors_elem. split.
  - intros (g & Hg & Hn & Ho).
    by rewrite <- (field_by_name _ g f Hnd Hg Hf Hn).
  - intros Ho. eauto.
Qed.

Lemma errors_nil f :
  errors m now p = [] → f ∈ fields m → ∃ v, field_outcome now p f = Ok v.
Proof.
  intros He Hf. destruct (field_outcome now p f) as [v | r] eqn:Ho; [eauto |].
  assert ((name f, r) ∈ errors m now p) as Hin by (apply errors_elem; eauto).
  rewrite He in Hin. by apply elem_of_nil in Hin.
Qed.

Lemma validated_lookup (fs : list FieldInfo) f v :
  NoDup (name <$> fs) → f ∈ fs → field_outcome now p f = Ok v →
  (list_to_map (omap (λ f, match field_outcome now p f with
                           | Ok v => Some (name f, v)
                           | Err _ => None
                           end) fs) : gmap string value) !! name f = Some v.
Proof.
  induction fs as [|h fs IH]; intros Hnd Hf Ho.
  - by apply elem_of_nil in Hf.
  - rewrite fmap_cons in Hnd. apply NoDup_cons in Hnd as [Hh Hnd].
    apply elem_of_cons in Hf as [-> | Hf]; simpl.
    + rewrite Ho. simpl. apply lookup_insert_eq.
    + assert (name h ≠ name f) as Hne.
      { intros E. apply Hh. rewrite E. apply list_elem_of_fmap. eauto. }
      destruct (field_outcome now p h); simpl; [| by apply IH].
      rewrite lookup_insert_ne by done. by apply IH.
Qed.

Lemma validated_lookup_absent (fs : list FieldInfo) (k : string) :
  k ∉ name <$> fs →
  (list_to_map (omap (λ f, match field_outcome now p f with
                           | Ok v => Some (name f, v)
                           | Err _ => None
                           end) fs) : gmap string value) !! k = None.
Proof.
  induction fs as [|h fs IH]; intros Hk; simpl; [apply lookup_empty |].
  rewrite fmap_cons in Hk. apply not_elem_of_cons in Hk as [Hne Hk].
  destruct (field_outcome now p h); simpl; [| by apply IH].
  rewrite lookup_insert_ne by done. by apply IH.
Qed.

Lemma validate_Ok u :
  validate m now p = Ok u →
  errors m now p = [] ∧
  values u = list_to_map (validated m now p) ∧
  fields_set u = dom p ∩ list_to_set (field_names m).
Proof.
  unfold validate. destruct (errors m now p); [| discriminate].
  intros [= <-]. done.
Qed.

(** A validated instance holds, for each field, what the field's check
    produced. *)
Lemma validate_value u f :
  NoDup (field_names m) → validate m now p = Ok u → f ∈ fields m →
  ∃ v, field_outcome now p f = Ok v ∧ values u !! name f = Some v.
Proof.
  intros Hnd (He & Hv & _)%validate_Ok Hf.
  destruct (errors_nil f He Hf) as [v Ho]. exists v. split; [done |].
  rewrite Hv. by apply validated_lookup.
Qed.

Lemma validate_value_absent u (k : string) :
  validate m now p = Ok u → k ∉ field_names m → values u !! k = None.
Proof.
  intros (_ & Hv & _)%validate_Ok Hk. rewrite Hv.
  by apply validated_lookup_absent.
Qed.

Lemma validate_fields_set u (k : string) :
  validate m now p = Ok u →
  k ∈ fields_set u ↔ is_Some (p !! k) ∧ k ∈ field_names m.
Proof.
  intros (_ & _ & Hs)%validate_Ok. rewrite Hs.
  rewrite elem_of_intersection, elem_of_dom, elem_of_list_to_set. done.
Qed.

End validation.

Lemma get_field_Some m k f :
  get_field m k = Some f → f ∈ fields m ∧ name f = k.
Proof.
  unfold get_field. intros H. apply find_some in H as [Hin Heq].
  split; [by apply list_elem_of_In | by apply String.eqb_eq].
Qed.

(** The failures reported under a key that the payload holds are those of
    checking the held value against the field of that name. *)
Lemma errors_of_key m now (p : payload) k f v r :
  m ∈ models → get_field m k = Some f → p !! k = Some v →
  (k, r) ∈ errors m now p ↔ check_value f v = Err r.
Proof.
  intros Hm [Hf <-]%get_field_Some Hp.
  rewrite (errors_field m now p f r (model_NoDup m Hm) Hf).
  unfold field_outcome. by rewrite Hp.
Qed.

Lemma errors_of_absent_key m now (p : payload) k f r :
  m ∈ models → get_field m k = Some f → p !! k = None →
  (k, r) ∈ errors m now p ↔ default f = NoDefault ∧ r = Missing.
Proof.
  intros Hm [Hf <-]%get_field_Some Hp.
  rewrite (errors_field m now p f r (model_NoDup m Hm) Hf).
  unfold field_outcome. rewrite Hp. destruct (default f); naive_solver.
Qed.

(** ** The checks of a string field *)

Lemma check_str_too_long f s :
  check_str f s = Err StringTooLong ↔
  ∃ n, max_length f = Some n ∧ n < String.length s.
Proof.
  unfold check_str. destruct (max_length f) as [n|].
  - destruct (Nat.ltb_spec n (String.length s)).
    + split; [eauto | done].
    + split.
      * destruct (regex f) as [r|]; [destruct (negb _) |]; discriminate.
      * intros (n' & [= <-] & ?). lia.
  - split; [| naive_solver].
    destruct (regex f) as [r|]; [destruct (negb _) |]; discriminate.
Qed.

Lemma check_str_mismatch f s :
  check_str f s = Err PatternMismatch ↔
  (∀ n, max_length f = Some n → String.length s ≤ n) ∧
  ∃ r, regex f = Some r ∧ ¬ Matches r s.
Proof.
  unfold check_str. destruct (max_length f) as [n|].
  - destruct (Nat.ltb_spec n (String.length s)).
    + split; [discriminate |]. intros [Hn _]. specialize (Hn n eq_refl). lia.
    + destruct (regex f) as [r|].
      * destruct (re_match r s) eqn:E; simpl.
        -- split; [discriminate |]. intros (_ & r' & [= <-] & Hr).
           by apply RegexFacts.re_match_spec in E.
        -- split; [| done]. intros _. split; [by intros ? [= <-] |].
           exists r. split; [done |]. by apply RegexFacts.re_match_false.
      * split; [discriminate | naive_solver].
  - destruct (regex f) as [r|].
    + destruct (re_match r s) eqn:E; simpl.
      * split; [discriminate |]. intros (_ & r' & [= <-] & Hr).
        by apply RegexFacts.re_match_spec in E.
      * split; [| done]. intros _. split; [done |].
        exists r. split; [done |]. by apply RegexFacts.re_match_false.
    + split; [discriminate | naive_solver].
Qed.

Lemma check_str_cases f s :
  check_str f s = Err StringTooLong ∨
  check_str f s = Err PatternMismatch ∨
  check_str f s = Ok (VStr s).
Proof.
  unfold check_str.
  destruct (match max_length f with Some n => n <? String.length s | None => false end);
    [auto |].
  destruct (match regex f with Some r => negb (re_match r s) | None => false end); auto.
Qed.

Lemma check_str_no_regex f s n :
  max_length f = Some n → regex f = None → String.length s ≤ n →
  check_str f s = Ok (VStr s).
Proof.
  intros Hm Hr Hl. unfold check_str. rewrite Hm, Hr.
  destruct (Nat.ltb_spec n (String.length s)); [lia | done].
Qed.

(** A string held by a [str] field, optional or not, goes through the
    string checks. *)
Lemma check_value_str f s :
  annotation f = TStr → check_value f (VStr s) = check_str f s.
Proof. intros H. unfold check_value. by rewrite H. Qed.

(** ** Shape of the email pattern *)

Lemma has_char_app c s1 s2 :
  has_char c (s1 +:+ s2) = has_char c s1 || has_char c s2.
Proof.
  induction s1 as [|a s1 IH]; [done |].
  change (String a s1 +:+ s2) with (String a (s1 +:+ s2)).
  simpl. rewrite IH. by rewrite orb_assoc.
Qed.

Lemma Matches_Lit c s : Matches (Lit c) s → s = String c "".
Proof.
  unfold Lit. inversion 1 as [|cls a Hin| | | | |]; subst.
  unfold in_class, in_range in Hin. simpl in Hin.
  rewrite orb_false_r in Hin. apply andb_true_iff in Hin as [H1 H2].
  apply N.leb_le in H1, H2.
  assert (N_of_ascii a = N_of_ascii c) as E by lia.
  f_equal. rewrite <- (ascii_N_embedding a), <- (ascii_N_embedding c). by rewrite E.
Qed.

(** Every string of the email shape holds an [@]. *)
Lemma email_regex_has_at s : Matches email_regex s → has_char "@" s = true.
Proof.
  unfold email_regex. inversion 1 as [| |r1 r2 s1 s2 _ H2| | | |]; subst.
  inversion H2 as [| |r1' r2' s3 s4 H3 _| | | |]; subst.
  apply Matches_Lit in H3 as ->.
  rewrite !has_char_app. simpl. by rewrite orb_true_r.
Qed.

Lemma validate_Err m now (p : payload) k r :
  (k, r) ∈ errors m now p → ∃ es, validate m now p = Err es ∧ (k, r) ∈ es.
Proof.
  intros Hin. unfold validate. destruct (errors m now p) as [|e es] eqn:E.
  - by apply elem_of_nil in Hin.
  - eauto.
Qed.

Lemma validate_no_errors m now (p : payload) :
  errors m now p = [] → ∃ u, validate m now p = Ok u.
Proof. intros E. unfold validate. rewrite E. eauto. Qed.

(** ** Maximum lengths *)

Lemma bounded_fields_are_str :
  forallb (λ m, forallb bounded_is_str (fields m)) models = true.
Proof. vm_compute. reflexivity. Qed.

Lemma bounded_field_str m f L :
  m ∈ models → f ∈ fields m → max_length f = Some L → annotation f = TStr.
Proof.
  intros Hm Hf HL.
  pose proof (forallb_elem _ _ _ bounded_fields_are_str Hm) as H. simpl in H.
  pose proof (forallb_elem _ _ _ H Hf) as H'. unfold bounded_is_str in H'.
  rewrite HL in H'. by destruct (annotation f).
Qed.

Lemma samples_accepted :
  forallb (λ m, forallb sample_accepted (fields m)) models = true.
Proof. vm_compute. reflexivity. Qed.

(** C6. For every string field of every model that declares a maximum
    length [L]: some value of length exactly [L] is accepted for the field,
    no value of length [L] is refused for its length, and every value of
    length [L + 1] makes validation fail with a [ValidationError] whose
    reason for the field is the length. *)
Theorem max_length_boundary (m : Model) (f : FieldInfo) (L : nat) :
  m ∈ models → f ∈ fields m → max_length f = Some L →
  (∃ s, String.length s = L ∧
        ∀ now (p : payload), p !! name f = Some (VStr s) →
          ∀ r, (name f, r) ∉ errors m now p) ∧
  (∀ s now (p : payload),
      p !! name f = Some (VStr s) → String.length s = L →
      (name f, StringTooLong) ∉ errors m now p) ∧
  (∀ s now (p : payload),
      p !! name f = Some (VStr s) → String.length s = L + 1 →
      ∃ es, validate m now p = Err es ∧ (name f, StringTooLong) ∈ es).
Proof.
  intros Hm Hf HL.
  pose proof (bounded_field_str m f L Hm Hf HL) as Hty.
  pose proof (model_NoDup m Hm) as Hnd.
  assert (∀ s now (p : payload) r, p !! name f = Some (VStr s) →
            (name f, r) ∈ errors m now p ↔ check_str f s = Err r) as Hchk.
  { intros s now p r Hp. rewrite (errors_field m now p f r Hnd Hf).
    unfold field_outcome. rewrite Hp. by rewrite check_value_str. }
  split; [| split].
  - pose proof (forallb_elem _ _ _ samples_accepted Hm) as H. simpl in H.
    pose proof (forallb_elem _ _ _ H Hf) as H'. unfold sample_accepted in H'.
    rewrite HL in H'. apply andb_true_iff in H' as [Hlen Hok].
    apply Nat.eqb_eq in Hlen. exists (sample f L). split; [done |].
    intros now p Hp r Hin. apply (Hchk _ _ _ _ Hp) in Hin.
    rewrite Hin in Hok. discriminate.
  - intros s now p Hp Hlen Hin. apply (Hchk _ _ _ _ Hp) in Hin.
    apply check_str_too_long in Hin as (n & Hn & Hlt).
    rewrite HL in Hn. injection Hn as <-. lia.
  - intros s now p Hp Hlen. apply validate_Err. apply (Hchk _ _ _ _ Hp).
    apply check_str_too_long. exists L. split; [done | lia].
Qed.

Lemma max_length_boundary_witness :
  ∃ es,
    validate User 0%Z
      (list_to_map [("email", VStr "a@example.com");
                    ("first_name", VStr (repeat_char "x" 101));
                    ("last_name", VStr "Lee")]) = Err es ∧
    ("first_name", StringTooLong) ∈ es.
Proof.
  refine (proj2 (proj2 (max_length_boundary User
            (Field "first_name" TStr |> with_max_length 100) 100 _ _ _))
            (repeat_char "x" 101) 0%Z _ _ _).
  - unfold models, tables. simpl. solve_elem.
  - unfold User. simpl. solve_elem.
  - reflexivity.
  - vm_compute. reflexivity.
  - vm_compute. reflexivity.
Defined.

(** ** Email format *)

Lemma User_in_models : User ∈ models.
Proof. unfold models, tables. simpl. solve_elem. Qed.

Lemma UserCreate_in_models : UserCreate ∈ models.
Proof. unfold models, tables, schemas. simpl. solve_elem. Qed.

(** On the persisted [User] model, an email within the length bound is
    refused for its format exactly when it is not of the email shape, and
    an email not of that shape always makes validation fail. *)
Lemma User_email_format now (p : payload) s :
  p !! "email" = Some (VStr s) → String.length s ≤ 255 →
  ("email", PatternMismatch) ∈ errors User now p ↔ ¬ Matches email_regex s.
Proof.
  intros Hp Hlen.
  rewrite (errors_of_key User now p "email" _ _ _ User_in_models eq_refl Hp).
  rewrite check_value_str by reflexivity. rewrite check_str_mismatch. split.
  - intros (_ & r & [= <-] & Hr). done.
  - intros Hr. split; [intros n [= <-]; done | eauto].
Qed.

Lemma User_email_rejected now (p : payload) s :
  p !! "email" = Some (VStr s) → ¬ Matches email_regex s →
  ∃ es r, validate User now p = Err es ∧ ("email", r) ∈ es.
Proof.
  intros Hp Hr.
  assert (∃ r, check_str (Field "email" TStr |> with_unique |> with_max_length 255
                            |> with_regex email_regex) s = Err r) as [r Hc].
  { destruct (check_str_cases
                (Field "email" TStr |> with_unique |> with_max_length 255
                   |> with_regex email_regex) s) as [H | [H | H]]; eauto.
    exfalso. apply Hr. apply RegexFacts.re_match_spec.
    unfold check_str in H. simpl in H.
    destruct (255 <? String.length s); [discriminate |].
    destruct (re_match email_regex s); [done | discriminate]. }
  destruct (validate_Err User now p "email" r) as (es & He & Hin); [| eauto].
  rewrite (errors_of_key User now p "email" _ _ _ User_in_models eq_refl Hp).
  by rewrite check_value_str.
Qed.

(** The create shape declares no pattern: whatever the payload, it never
    refuses an email for its format. *)
Lemma UserCreate_email_no_format now (p : payload) :
  ("email", PatternMismatch) ∉ errors UserCreate now p.
Proof.
  intros Hin. destruct (p !! "email") as [v|] eqn:Hp.
  - rewrite (errors_of_key UserCreate now p "email" _ _ _
               UserCreate_in_models eq_refl Hp) in Hin.
    destruct v; try discriminate.
    rewrite check_value_str in Hin by reflexivity.
    apply check_str_mismatch in Hin as (_ & r & Hr & _). discriminate.
  - rewrite (errors_of_absent_key UserCreate now p "email" _ _
               UserCreate_in_models eq_refl Hp) in Hin.
    by destruct Hin.
Qed.


Lemma NewStarterRequestCreate_in_models : NewStarterRequestCreate ∈ models.
Proof. unfold models, tables, schemas. simpl. solve_elem. Qed.

Lemma NewStarterRequest_in_models : NewStarterRequest ∈ models.
Proof. unfold models, tables. simpl. solve_elem. Qed.

(** C9. [starter_email] declares a maximum length and no pattern: for every
    string of length at most 255, of the email shape or not, neither the
    [NewStarterRequestCreate] shape nor the [NewStarterRequest] model
    reports any failure for it.  A string without [@] is never of the email
    shape, and ["no-at-sign"] is such a string. *)
Theorem starter_email_not_format_validated (s : string) (now : Z) (p : payload) :
  p !! "starter_email" = Some (VStr s) → String.length s ≤ 255 →
  (∀ r, ("starter_email", r) ∉ errors NewStarterRequestCreate now p) ∧
  (∀ r, ("starter_email", r) ∉ errors NewStarterRequest now p) ∧
  (has_char "@" s = false → ¬ Matches email_regex s) ∧
  has_char "@" "no-at-sign" = false.
Proof.
  intros Hp Hlen. split; [| split; [| split]].
  - intros r Hin.
    rewrite (errors_of_key NewStarterRequestCreate now p "starter_email" _ _ _
               NewStarterRequestCreate_in_models eq_refl Hp) in Hin.
    rewrite check_value_str in Hin by reflexivity.
    rewrite (check_str_no_regex _ s 255) in Hin by done. discriminate.
  - intros r Hin.
    rewrite (errors_of_key NewStarterRequest now p "starter_email" _ _ _
               NewStarterRequest_in_models eq_refl Hp) in Hin.
    rewrite check_value_str in Hin by reflexivity.
    rewrite (check_str_no_regex _ s 255) in Hin by done. discriminate.
  - intros Hno H%email_regex_has_at. congruence.
  - reflexivity.
Qed.

Lemma starter_email_not_format_validated_witness :
  (∀ r, ("starter_email", r) ∉ errors NewStarterRequestCreate 0%Z starter_without_at) ∧
  (∀ r, ("starter_email", r) ∉ errors NewStarterRequest 0%Z starter_without_at) ∧
  (has_char "@" "no-at-sign" = false → ¬ Matches email_regex "no-at-sign") ∧
  has_char "@" "no-at-sign" = false.
Proof.
  apply (starter_email_not_format_validated "no-at-sign" 0%Z starter_without_at).
  - vm_compute. reflexivity.
  - vm_compute. lia.
Defined.

(** The whole payload with the shapeless [starter_email] validates. *)
Lemma starter_without_at_validates now :
  errors NewStarterRequestCreate now starter_without_at = [].
Proof. vm_compute. reflexivity. Qed.

(** ** Enumerated fields *)

Lemma check_value_enum f c s :
  annotation f = TEnum c → check_value f (VStr s) = check_enum c s.
Proof. intros H. unfold check_value. by rewrite H. Qed.

(** The enumerated fields of the source are those named [role],
    [category], [status] and [content_type], and no other. *)
Lemma enum_fields_named :
  forallb (λ m, forallb enum_named (fields m)) models = true.
Proof. vm_compute. reflexivity. Qed.

(** C5. For every enumerated field of every model and every string given
    for it: when the string belongs to the closed value set of the field's
    enumeration no failure is reported for the field and the validated
    instance holds the member with that value; otherwise validation fails
    with a [ValidationError] whose reason for the field is the invalid enum
    value.  In particular a [ProjectMembership] with role ["not_a_role"] is
    refused, by the create shape and by the table model, and role
    ["viewer"] is accepted and read back as the member [VIEWER], whose
    value is ["viewer"]. *)
Theorem enum_membership :
  (∀ (m : Model) (f : FieldInfo) (c : enum_class) (s : string) (now : Z)
     (p : payload),
      m ∈ models → f ∈ fields m → annotation f = TEnum c →
      p !! name f = Some (VStr s) →
      name f ∈ ["role"; "category"; "status"; "content_type"] ∧
      (s ∈ enum_values c →
         (∀ r, (name f, r) ∉ errors m now p) ∧
         (∀ u, validate m now p = Ok u →
               values u !! name f = Some (VEnum c s))) ∧
      (s ∉ enum_values c →
         ∃ es, validate m now p = Err es ∧ (name f, EnumInvalid) ∈ es)) ∧
  (∀ now,
      validate ProjectMembershipCreate now (membership_payload "not_a_role")
        = Err [("role", EnumInvalid)] ∧
      validate ProjectMembership now (membership_payload "not_a_role")
        = Err [("role", EnumInvalid)]) ∧
  (∀ now,
      let created := validate ProjectMembershipCreate now (membership_payload "viewer") in
      let stored := validate ProjectMembership now (dump created) in
      errors ProjectMembershipCreate now (membership_payload "viewer") = [] ∧
      dump created !! "role" = Some (VEnum EUserRole "viewer") ∧
      errors ProjectMembership now (dump created) = [] ∧
      dump stored !! "role" = Some (VEnum EUserRole (UserRole.value UserRole.VIEWER)) ∧
      UserRole.of_value "viewer" = Some UserRole.VIEWER ∧
      UserRole.value UserRole.VIEWER = "viewer").
Proof.
  split; [| split].
  - intros m f c s now p Hm Hf Hty Hp.
    pose proof (model_NoDup m Hm) as Hnd.
    assert (∀ r, (name f, r) ∈ errors m now p ↔ check_enum c s = Err r) as Hchk.
    { intros r. rewrite (errors_field m now p f r Hnd Hf).
      unfold field_outcome. rewrite Hp. by rewrite (check_value_enum f c). }
    split; [| split].
    + pose proof (forallb_elem _ _ _ enum_fields_named Hm) as H. simpl in H.
      pose proof (forallb_elem _ _ _ H Hf) as H'. unfold enum_named in H'.
      rewrite Hty in H'. by apply bool_decide_eq_true in H'.
    + intros Hs. split.
      * intros r Hin%Hchk. unfold check_enum in Hin.
        rewrite bool_decide_eq_true_2 in Hin by done. discriminate.
      * intros u Hu.
        destruct (validate_value m now p u f Hnd Hu Hf) as (v & Ho & Hv).
        unfold field_outcome in Ho. rewrite Hp, (check_value_enum f c) in Ho by done.
        unfold check_enum in Ho. rewrite bool_decide_eq_true_2 in Ho by done.
        by injection Ho as <-.
    + intros Hs. apply validate_Err, Hchk. unfold check_enum.
      by rewrite bool_decide_eq_false_2.
  - intros now. split; vm_compute; reflexivity.
  - intros now. vm_compute. repeat split; reflexivity.
Qed.

Lemma enum_membership_witness :
  ("category", EnumInvalid)
    ∉ errors ToolCreate 0
        (list_to_map [("name", VStr "Wiki"); ("category", VStr "platform")]).
Proof.
  refine (proj1 (proj1 (proj2 (proj1 enum_membership ToolCreate
            (Field "category" (TEnum EToolCategory)) EToolCategory "platform" 0%Z
            (list_to_map [("name", VStr "Wiki"); ("category", VStr "platform")])
            _ _ _ _)) _) EnumInvalid).
  - unfold models, tables, schemas. simpl. solve_elem.
  - unfold ToolCreate. simpl. solve_elem.
  - reflexivity.
  - vm_compute. reflexivity.
  - vm_compute. solve_elem.
Defined.

(** ** Declared defaults *)

Lemma value_eqb_sound a b : value_eqb a b = true → a = b.
Proof.
  destruct a as [|x|x|x|x|x|c x|x|x], b as [|y|y|y|y|y|c' y|y|y];
    simpl; intros H; repeat case_match; try discriminate.
  - done.
  - by apply Bool.eqb_prop in H as ->.
  - by apply Z.eqb_eq in H as ->.
  - by apply String.eqb_eq in H as ->.
  - by apply Z.eqb_eq in H as ->.
  - by apply bool_decide_eq_true in H as ->.
  - apply andb_true_iff in H as [H1 H2].
    apply bool_decide_eq_true in H1 as ->. by apply String.eqb_eq in H2 as ->.
  - done.
  - by apply bool_decide_eq_true in H as ->.
Qed.

Lemma default_is_sound f d : default_is f d = true → default f = Default d.
Proof.
  unfold default_is. destruct (default f); try discriminate.
  by intros ->%value_eqb_sound.
Qed.

Lemma named_defaults_declared :
  forallb (λ m, forallb (named_default_declared m) (fields m)) (tables ++ creates)
  = true.
Proof. vm_compute. reflexivity. Qed.

Lemma creates_models m : m ∈ creates → m ∈ models.
Proof.
  intros H. apply schemas_models. unfold creates in H. unfold schemas.
  repeat (apply elem_of_cons in H as [-> | H]; [solve_elem |]).
  by apply elem_of_nil in H.
Qed.

Lemma entity_models m : m ∈ tables ++ creates → m ∈ models.
Proof.
  intros [H | H]%elem_of_app; [by apply tables_models | by apply creates_models].
Qed.

(** A field left out of the payload takes its declared default. *)
Lemma omitted_default m now (p : payload) u f d :
  m ∈ models → validate m now p = Ok u → f ∈ fields m →
  p !! name f = None → default f = Default d →
  values u !! name f = Some d.
Proof.
  intros Hm Hu Hf Hp Hd.
  destruct (validate_value m now p u f (model_NoDup m Hm) Hu Hf) as (v & Ho & Hv).
  unfold field_outcome in Ho. rewrite Hp, Hd in Ho. by injection Ho as <-.
Qed.

(** C7. For every entity (and every create shape), a field with a declared
    default that is omitted from a payload that validates holds its
    declared default in the constructed row: in particular [is_active] is
    true, [role] is [team_member], [status] is [pending] on
    [NewStarterRequest] and [not_started] on [InductionProgress], and the
    JSON maps and sequences are empty. *)
Theorem omitted_fields_take_defaults (m : Model) (f : FieldInfo) (now : Z)
    (p : payload) (u : Instance) :
  m ∈ tables ++ creates → f ∈ fields m →
  validate m now p = Ok u → p !! name f = None →
  (∀ d, default f = Default d → values u !! name f = Some d) ∧
  (default f = DefaultFactoryUtcnow → values u !! name f = Some (VDatetime now)) ∧
  (∀ k d, (k, d) ∈ named_defaults → name f = k → values u !! k = Some d) ∧
  (∀ t d, (t, d) ∈ status_defaults → tablename m = Some t → name f = "status" →
          values u !! "status" = Some d).
Proof.
  intros Hm Hf Hu Hp.
  pose proof (entity_models m Hm) as Hmm.
  pose proof (forallb_elem _ _ _ named_defaults_declared Hm) as H. simpl in H.
  pose proof (forallb_elem _ _ _ H Hf) as H'. unfold named_default_declared in H'.
  apply andb_true_iff in H' as [Hnamed Hstatus].
  split; [| split; [| split]].
  - intros d Hd. by apply (omitted_default m now p u f d).
  - intros Hd.
    destruct (validate_value m now p u f (model_NoDup m Hmm) Hu Hf) as (v & Ho & Hv).
    unfold field_outcome in Ho. rewrite Hp, Hd in Ho. by injection Ho as <-.
  - intros k d Hkd Hk.
    pose proof (forallb_elem _ _ _ Hnamed Hkd) as Hb. simpl in Hb.
    rewrite Hk, String.eqb_refl in Hb. simpl in Hb.
    rewrite <- Hk. apply (omitted_default m now p u f d); auto.
    by apply default_is_sound.
  - intros t d Htd Ht Hk.
    pose proof (forallb_elem _ _ _ Hstatus Htd) as Hb. simpl in Hb.
    rewrite Hk, Ht, !String.eqb_refl in Hb. simpl in Hb.
    rewrite <- Hk. apply (omitted_default m now p u f d); auto.
    by apply default_is_sound.
Qed.

Lemma omitted_fields_take_defaults_witness :
  dump (validate ProjectMembership 5 membership_without_role) !! "role"
  = Some (VEnum EUserRole "team_member").
Proof.
  pose (u := instance_of ProjectMembership 5 membership_without_role).
  change (values u !! "role" = Some (VEnum EUserRole "team_member")).
  refine (proj1 (proj2 (proj2 (omitted_fields_take_defaults ProjectMembership
            (Field "role" (TEnum EUserRole)
               |> with_default (VEnum EUserRole (UserRole.value UserRole.TEAM_MEMBER)))
            5 membership_without_role u _ _ _ _))) "role" _ _ eq_refl).
  - unfold tables. simpl. solve_elem.
  - unfold ProjectMembership. simpl. solve_elem.
  - reflexivity.
  - vm_compute. reflexivity.
  - unfold named_defaults. solve_elem.
Defined.

(** ** Completion percentage *)

Lemma InductionProgress_in_models : InductionProgress ∈ models.
Proof. unfold models, tables. simpl. solve_elem. Qed.

Lemma accepts_percentage_iff v :
  accepts_percentage v ↔ ∃ w, check_value completion_percentage v = Ok w.
Proof.
  unfold accepts_percentage. split.
  - intros H.
    destruct (check_value completion_percentage v) as [w | r] eqn:E; [eauto |].
    exfalso.
    apply (H 0%Z {["completion_percentage" := v]} (lookup_singleton_eq _ _) r).
    by apply (errors_of_key InductionProgress 0 _ "completion_percentage"
                completion_percentage v r InductionProgress_in_models eq_refl
                (lookup_singleton_eq _ _)).
  - intros [w Hw] now p Hp r Hin.
    apply (errors_of_key InductionProgress now p "completion_percentage"
             completion_percentage v r InductionProgress_in_models eq_refl Hp) in Hin.
    congruence.
Qed.

Lemma rejects_percentage_iff v :
  rejects_percentage v ↔ ∃ r, check_value completion_percentage v = Err r.
Proof.
  unfold rejects_percentage. split.
  - intros H.
    destruct (H 0%Z {["completion_percentage" := v]} (lookup_singleton_eq _ _))
      as (es & r & He & Hin).
    exists r. unfold validate in He.
    destruct (errors InductionProgress 0 {["completion_percentage" := v]})
      as [|e l] eqn:E; [discriminate |].
    injection He as <-. rewrite <- E in Hin.
    by apply (errors_of_key InductionProgress 0 _ "completion_percentage"
                completion_percentage v r InductionProgress_in_models eq_refl
                (lookup_singleton_eq _ _)) in Hin.
  - intros [r Hr] now p Hp.
    destruct (validate_Err InductionProgress now p "completion_percentage" r)
      as (es & He & Hin); [| eauto].
    by apply (errors_of_key InductionProgress now p "completion_percentage"
                completion_percentage v r InductionProgress_in_models eq_refl Hp).
Qed.





Lemma check_percentage_whole d :
  3 < digits_of d - decimals_of d →
  ∃ r, check_decimal completion_percentage d = Err r.
Proof.
  intros Hw. unfold check_decimal. simpl.
  destruct (_ && _); [eauto |]. destruct (_ && _); [eauto |].
  destruct (Nat.ltb_spec 3 (digits_of d - decimals_of d)); [eauto | lia].
Qed.



(** A written third decimal place that is a trailing zero does not count:
    50.250 is accepted. *)
Lemma percentage_trailing_zero_accepted :
  accepts_percentage (VDecimal (mkDecimal false [5; 0; 2; 5; 0] (-3))).
Proof. apply accepts_percentage_iff. eexists. vm_compute. reflexivity. Qed.

(** Four integer digits are one too many. *)
Lemma percentage_whole_digits d :
  3 < digits_of d - decimals_of d → rejects_percentage (VDecimal d).
Proof.
  intros H. apply rejects_percentage_iff. by apply check_percentage_whole.
Qed.


(** ** Partial updates *)

Lemma dump_exclude_unset_lookup u (k : string) :
  dump_exclude_unset u !! k
  = if decide (k ∈ fields_set u) then values u !! k else None.
Proof.
  unfold dump_exclude_unset. destruct (decide (k ∈ fields_set u)) as [Hk | Hk].
  - destruct (values u !! k) as [v|] eqn:E.
    + apply map_lookup_filter_Some. done.
    + apply map_lookup_filter_None. left. done.
  - apply map_lookup_filter_None. right. intros v _. done.
Qed.

Lemma apply_update_lookup u (r : gmap string value) (k : string) :
  apply_update u r !! k
  = match dump_exclude_unset u !! k with
    | Some v => Some v
    | None => r !! k
    end.
Proof.
  unfold apply_update. rewrite lookup_union.
  destruct (dump_exclude_unset u !! k), (r !! k); done.
Qed.

(** A key that is no field of the update shape is never written. *)
Lemma apply_update_foreign_key m now (p : payload) u (r : gmap string value) k :
  validate m now p = Ok u → k ∉ field_names m →
  apply_update u r !! k = r !! k.
Proof.
  intros Hu Hk. rewrite apply_update_lookup, dump_exclude_unset_lookup.
  destruct (decide (k ∈ fields_set u)) as [Hin | Hin]; [| done].
  apply (validate_fields_set m now p u k Hu) in Hin as [_ Hin]. done.
Qed.

(** A field of the shape that the payload does not hold is not written. *)
Lemma apply_update_absent m now (p : payload) u (r : gmap string value) k :
  validate m now p = Ok u → p !! k = None →
  apply_update u r !! k = r !! k.
Proof.
  intros Hu Hk. rewrite apply_update_lookup, dump_exclude_unset_lookup.
  destruct (decide (k ∈ fields_set u)) as [Hin | Hin]; [| done].
  apply (validate_fields_set m now p u k Hu) in Hin as [[v Hv] _]. congruence.
Qed.

Lemma check_value_plain f v w :
  plain f = true → check_value f v = Ok w → w = v.
Proof.
  unfold plain, check_value. intros Hpl H.
  destruct v, (annotation f); try discriminate;
    repeat case_match; try discriminate; try by injection H as <-.
  destruct (check_str_cases f s) as [E | [E | E]]; congruence.
Qed.

Lemma update_shapes_plain :
  forallb (λ m, forallb plain (fields m)) [UserUpdate; ProjectUpdate] = true.
Proof. vm_compute. reflexivity. Qed.

Lemma update_shapes_models m : m ∈ [UserUpdate; ProjectUpdate] → m ∈ models.
Proof.
  intros H. apply schemas_models. unfold schemas.
  repeat (apply elem_of_cons in H as [-> | H]; [solve_elem |]).
  by apply elem_of_nil in H.
Qed.

(** A field of the shape that the payload holds is overwritten with the
    value the payload gives. *)
Lemma apply_update_present m now (p : payload) u (r : gmap string value) k :
  m ∈ [UserUpdate; ProjectUpdate] → validate m now p = Ok u →
  k ∈ field_names m → is_Some (p !! k) →
  apply_update u r !! k = p !! k.
Proof.
  intros Hm Hu Hk [v Hv].
  rewrite apply_update_lookup, dump_exclude_unset_lookup.
  rewrite decide_True by (apply (validate_fields_set m now p u k Hu); eauto).
  apply list_elem_of_fmap in Hk as (f & -> & Hf).
  destruct (validate_value m now p u f
              (model_NoDup m (update_shapes_models m Hm)) Hu Hf) as (w & Ho & Hw).
  rewrite Hw, Hv. unfold field_outcome in Ho. rewrite Hv in Ho.
  pose proof (forallb_elem _ _ _ update_shapes_plain Hm) as H. simpl in H.
  pose proof (forallb_elem _ _ _ H Hf) as Hpl.
  by rewrite (check_value_plain f v w Hpl Ho).
Qed.

(** C2. Applying a validated [UserUpdate] or [ProjectUpdate] payload to a
    row overwrites each field of the shape that the payload explicitly
    holds with the value given, and leaves every other key of the row as
    stored.  In particular the payload holding only [is_active = false]
    sets [is_active] to false and leaves [first_name], [last_name] and
    [email] unchanged. *)
Theorem partial_update :
  (∀ (m : Model) (now : Z) (p : payload) (u : Instance)
     (r : gmap string value) (k : string),
      m ∈ [UserUpdate; ProjectUpdate] → validate m now p = Ok u →
      (k ∈ field_names m → is_Some (p !! k) → apply_update u r !! k = p !! k) ∧
      (¬ (k ∈ field_names m ∧ is_Some (p !! k)) → apply_update u r !! k = r !! k)) ∧
  (∀ (now : Z) (r : gmap string value),
      ∃ u, validate UserUpdate now {["is_active" := VBool false]} = Ok u ∧
           apply_update u r !! "is_active" = Some (VBool false) ∧
           apply_update u r !! "first_name" = r !! "first_name" ∧
           apply_update u r !! "last_name" = r !! "last_name" ∧
           apply_update u r !! "email" = r !! "email").
Proof.
  split.
  - intros m now p u r k Hm Hu. split.
    + by apply (apply_update_present m now p u r k Hm Hu).
    + intros Hno. destruct (decide (k ∈ field_names m)) as [Hk | Hk].
      * apply (apply_update_absent m now p u r k Hu).
        destruct (p !! k) eqn:E; [| done]. exfalso. apply Hno. eauto.
      * by apply (apply_update_foreign_key m now p u r k Hu).
  - intros now r.
    destruct (validate_no_errors UserUpdate now {["is_active" := VBool false]})
      as [u Hu]; [vm_compute; reflexivity |].
    exists u. split; [done |]. split; [| split; [| split]].
    + rewrite (apply_update_present UserUpdate now
                 {["is_active" := VBool false]} u r "is_active");
        [done | solve_elem | done | | by eexists].
      unfold UserUpdate. simpl. solve_elem.
    + by apply (apply_update_absent UserUpdate now
                  {["is_active" := VBool false]} u r "first_name" Hu).
    + by apply (apply_update_absent UserUpdate now
                  {["is_active" := VBool false]} u r "last_name" Hu).
    + by apply (apply_update_absent UserUpdate now
                  {["is_active" := VBool false]} u r "email" Hu).
Qed.

Lemma partial_update_witness :
  apply_update (instance_of UserUpdate 9 {["first_name" := VStr "Bo"]}) stored_user
    !! "first_name"
  = ({["first_name" := VStr "Bo"]} : payload) !! "first_name".
Proof.
  refine (proj1 (proj1 partial_update UserUpdate 9%Z {["first_name" := VStr "Bo"]}
            (instance_of UserUpdate 9 {["first_name" := VStr "Bo"]})
            stored_user "first_name" _ _) _ _).
  - solve_elem.
  - vm_compute. reflexivity.
  - unfold UserUpdate. simpl. solve_elem.
  - vm_compute. eauto.
Defined.

(** C10. No [ProjectUpdate] payload changes the stored [code] of a project
    and no [UserUpdate] payload changes the stored [email] of a user: the
    shapes declare no such field, so the key is never written, whatever the
    payload holds. *)
Theorem update_shapes_keep_keys (now : Z) (p : payload) (u : Instance)
    (r : gmap string value) :
  (validate ProjectUpdate now p = Ok u → apply_update u r !! "code" = r !! "code") ∧
  (validate UserUpdate now p = Ok u → apply_update u r !! "email" = r !! "email") ∧
  ("code" ∉ field_names ProjectUpdate) ∧
  ("email" ∉ field_names UserUpdate).
Proof.
  assert ("code" ∉ field_names ProjectUpdate) as Hc.
  { apply (bool_decide_unpack _). vm_compute. exact I. }
  assert ("email" ∉ field_names UserUpdate) as He.
  { apply (bool_decide_unpack _). vm_compute. exact I. }
  split; [| split; [| split]]; try done.
  - intros Hu. by apply (apply_update_foreign_key ProjectUpdate now p u r "code").
  - intros Hu. by apply (apply_update_foreign_key UserUpdate now p u r "email").
Qed.

Lemma update_shapes_keep_keys_witness :
  apply_update (instance_of ProjectUpdate 9 recode_payload) stored_project !! "code"
  = stored_project !! "code".
Proof.
  apply (proj1 (update_shapes_keep_keys 9%Z recode_payload
                  (instance_of ProjectUpdate 9 recode_payload) stored_project)).
  vm_compute. reflexivity.
Defined.

(** The same payload does rename the project. *)
Lemma recode_payload_renames :
  apply_update (instance_of ProjectUpdate 9 recode_payload) stored_project !! "name"
  = Some (VStr "Renamed").
Proof. vm_compute. reflexivity. Qed.

(** ** Persistence: uniqueness and references *)

Lemma existsb_elem {A} (P : A → bool) (l : list A) (x : A) :
  x ∈ l → P x = true → existsb P l = true.
Proof.
  intros Hx HP. apply existsb_exists. exists x.
  split; [by apply list_elem_of_In | done].
Qed.

Lemma existsb_none {A} (P : A → bool) (l : list A) :
  (∀ x, x ∈ l → P x = false) → existsb P l = false.
Proof.
  intros H. destruct (existsb P l) eqn:E; [| done].
  apply existsb_exists in E as (x & Hx%list_elem_of_In & HP).
  rewrite (H x Hx) in HP. discriminate.
Qed.

Lemma same_key_eq a b : same_key a b = true → a = b.
Proof.
  destruct a, b; simpl; try discriminate.
  - by intros ->%Z.eqb_eq.
  - by intros ->%String.eqb_eq.
Qed.

Lemma unique_violations_elem m t db (r : gmap string value) e :
  e ∈ unique_violations m t db r ↔
  ∃ f v, f ∈ fields m ∧ e = ConflictError (name f) ∧ r !! name f = Some v ∧
         unique f = true ∧ existsb (holds_key (name f) v) (db !!! t) = true.
Proof.
  unfold unique_violations. rewrite list_elem_of_omap. split.
  - intros (f & Hf & H). destruct (r !! name f) as [v|] eqn:E; [| discriminate].
    destruct (unique f) eqn:Hu; simpl in H; [| discriminate].
    destruct (existsb _ _) eqn:Hx; [| discriminate].
    injection H as <-. exists f, v. done.
  - intros (f & v & Hf & -> & Hr & Hu & Hx). exists f. split; [done |].
    by rewrite Hr, Hu, Hx.
Qed.

Lemma reference_violations_elem m db (r : gmap string value) e :
  e ∈ reference_violations m db r ↔
  ∃ f fk v, f ∈ fields m ∧ e = ReferenceError (name f) ∧
            foreign_key f = Some fk ∧ r !! name f = Some v ∧ v ≠ VNone ∧
            referenced db fk v = false.
Proof.
  unfold reference_violations. rewrite list_elem_of_omap. split.
  - intros (f & Hf & H). destruct (foreign_key f) as [fk|] eqn:Hk; [| discriminate].
    destruct (r !! name f) as [v|] eqn:E; [| discriminate].
    destruct (referenced db fk v) eqn:Hx.
    + destruct v; discriminate.
    + exists f, fk, v. destruct v; try discriminate; injection H as <-; done.
  - intros (f & fk & v & Hf & -> & Hk & Hr & Hv & Hx). exists f. split; [done |].
    rewrite Hk, Hr, Hx. by destruct v.
Qed.

(** A violated constraint makes the insertion fail and leaves the database
    as it was. *)
Lemma insert_violation m t db (r : gmap string value) e :
  tablename m = Some t →
  e ∈ unique_violations m t db r ++ reference_violations m db r →
  ∃ es, insert m r db = (db, Err es) ∧ e ∈ es.
Proof.
  intros Ht He. unfold insert. rewrite Ht.
  destruct (unique_violations m t db r ++ reference_violations m db r) as [|x l].
  - by apply elem_of_nil in He.
  - eauto.
Qed.

Lemma insert_Err m db db' (r : gmap string value) es e :
  insert m r db = (db', Err es) → e ∈ es →
  db' = db ∧
  (e = UnmappedError ∨
   ∃ t, tablename m = Some t ∧
        e ∈ unique_violations m t db r ++ reference_violations m db r).
Proof.
  unfold insert. destruct (tablename m) as [t|].
  - destruct (unique_violations m t db r ++ reference_violations m db r)
      as [|x l] eqn:E; [discriminate |].
    intros [= <- <-] He. split; [done |]. right. exists t. by rewrite E.
  - intros [= <- <-] He. split; [done |]. left.
    by apply list_elem_of_singleton in He.
Qed.

Lemma insert_conflict m k f db (r r' : gmap string value) v :
  get_field m k = Some f → unique f = true →
  r !! k = Some v → r' ∈ stored m db → holds_key k v r' = true →
  ∃ es, insert m r db = (db, Err es) ∧ ConflictError k ∈ es.
Proof.
  intros [Hf <-]%get_field_Some Hu Hr Hin Hk. unfold stored in Hin.
  destruct (tablename m) as [t|] eqn:Ht; [| by apply elem_of_nil in Hin].
  apply (insert_violation m t db r _ Ht). apply elem_of_app. left.
  apply unique_violations_elem. exists f, v. repeat split; try done.
  by apply (existsb_elem _ _ r').
Qed.

Lemma insert_Err_unchanged m (r : gmap string value) (db : database) es :
  (insert m r db).2 = Err es → (insert m r db).1 = db.
Proof.
  unfold insert. destruct (tablename m) as [t|]; [| done].
  destruct (unique_violations m t db r ++ reference_violations m db r);
    [discriminate | done].
Qed.

(** C3. The unique-marked columns are [User.email], [Project.code] and
    [OnboardingDetails.request_id].  Persisting a row whose value for one of
    them equals that of a stored row of the same table fails with a
    [ConflictError] on that column and leaves the database unchanged.  A
    first user with email [a@example.com] is stored and a second is refused;
    likewise two projects with code [PRJ1]. *)
Theorem unique_collision_conflict :
  declared_unique
    = [(Some "users", "email"); (Some "projects", "code");
       (Some "onboarding_details", "request_id")] ∧
  (∀ (m : Model) (k : string) (db : database) (r r' : gmap string value)
     (v : value),
      (m, k) ∈ unique_columns →
      r !! k = Some v → r' ∈ stored m db → r' !! k = Some v →
      (∃ s, v = VStr s) ∨ (∃ z, v = VInt z) →
      ∃ es, insert m r db = (db, Err es) ∧ ConflictError k ∈ es) ∧
  (let db1 := (insert User alice ∅).1 in
   (insert User alice ∅).2 = Ok 1%Z ∧
   (insert User alice_again db1).2 = Err [ConflictError "email"] ∧
   (insert User alice_again db1).1 = db1) ∧
  (let db1 := (insert User alice ∅).1 in
   let db2 := (insert Project (project_row "Portal") db1).1 in
   (insert Project (project_row "Portal") db1).2 = Ok 1%Z ∧
   (insert Project (project_row "Other") db2).2 = Err [ConflictError "code"] ∧
   (insert Project (project_row "Other") db2).1 = db2).
Proof.
  split; [vm_compute; reflexivity |].
  split; [| split; cbv zeta; (split; [| split]);
            first [eapply insert_Err_unchanged; vm_compute; reflexivity
                  | vm_compute; reflexivity]].
  intros m k db r r' v Hmk Hr Hin Hr' Hv.
  assert (holds_key k v r' = true) as Hk.
  { unfold holds_key. rewrite Hr'.
    destruct Hv as [[s ->] | [z ->]]; simpl;
      [apply String.eqb_refl | apply Z.eqb_refl]. }
  unfold unique_columns in Hmk.
  repeat (apply elem_of_cons in Hmk as [[= -> ->] | Hmk];
          [eapply insert_conflict; [reflexivity | reflexivity | eauto..] |]).
  by apply elem_of_nil in Hmk.
Qed.

Lemma unique_collision_conflict_witness :
  ∃ es, insert User alice_again {["users" := [<["id" := VInt 1]> alice]]}
        = ({["users" := [<["id" := VInt 1]> alice]]}, Err es) ∧
        ConflictError "email" ∈ es.
Proof.
  refine (proj1 (proj2 unique_collision_conflict) User "email"
            {["users" := [<["id" := VInt 1]> alice]]} alice_again
            (<["id" := VInt 1]> alice) (VStr "a@example.com") _ _ _ _ _).
  - unfold unique_columns. solve_elem.
  - vm_compute. reflexivity.
  - unfold stored. simpl. rewrite lookup_total_singleton_eq. solve_elem.
  - vm_compute. reflexivity.
  - left. eauto.
Defined.

Lemma referenced_absent (db : database) fk t col z :
  split_dot fk = (t, col) →
  (∀ r', r' ∈ db !!! t → r' !! col ≠ Some (VInt z)) →
  referenced db fk (VInt z) = false.
Proof.
  intros Hs Hno. unfold referenced. rewrite Hs. apply existsb_none.
  intros r' Hin. unfold holds_key. destruct (r' !! col) as [w|] eqn:E; [| done].
  destruct (same_key w (VInt z)) eqn:Hk; [| done].
  apply same_key_eq in Hk as ->. by destruct (Hno r' Hin).
Qed.

Lemma referenced_present (db : database) fk t col z (r' : gmap string value) :
  split_dot fk = (t, col) → r' ∈ db !!! t → r' !! col = Some (VInt z) →
  referenced db fk (VInt z) = true.
Proof.
  intros Hs Hin Hr. unfold referenced. rewrite Hs.
  apply (existsb_elem _ _ r' Hin). unfold holds_key. rewrite Hr. apply Z.eqb_refl.
Qed.

Lemma tables_mapped : forallb (λ m, bool_decide (is_Some (tablename m))) tables = true.
Proof. vm_compute. reflexivity. Qed.

Lemma table_tablename m : m ∈ tables → ∃ t, tablename m = Some t.
Proof.
  intros Hm. pose proof (forallb_elem _ _ _ tables_mapped Hm) as H. simpl in H.
  by apply bool_decide_eq_true in H.
Qed.

(** C4. For every foreign-key field of every table, naming table [t] and
    column [col]: persisting a row whose value for the field is held by no
    row of [t] in column [col] fails with a [ReferenceError] on the field
    and leaves the database unchanged; when some row of [t] holds it, no
    [ReferenceError] is raised on the field.  An [OnboardingDetails] whose
    [request_id] is 999999, with no such request stored, is refused. *)
Theorem dangling_reference :
  (∀ (m : Model) (f : FieldInfo) (fk t col : string) (db : database)
     (r : gmap string value) (z : Z),
      m ∈ tables → f ∈ fields m → foreign_key f = Some fk →
      split_dot fk = (t, col) → r !! name f = Some (VInt z) →
      ((∀ r', r' ∈ db !!! t → r' !! col ≠ Some (VInt z)) →
         ∃ es, insert m r db = (db, Err es) ∧ ReferenceError (name f) ∈ es) ∧
      ((∃ r', r' ∈ db !!! t ∧ r' !! col = Some (VInt z)) →
         ∀ db' es, insert m r db = (db', Err es) → ReferenceError (name f) ∉ es)) ∧
  (let db1 := (insert User alice ∅).1 in
   (insert OnboardingDetails dangling_details db1).2
     = Err [ReferenceError "request_id"] ∧
   (insert OnboardingDetails dangling_details db1).1 = db1).
Proof.
  split; [| cbv zeta; split;
            [| eapply insert_Err_unchanged]; vm_compute; reflexivity].
  intros m f fk t col db r z Hm Hf Hfk Hs Hr. split.
  - intros Hno. destruct (table_tablename m Hm) as [tm Htm].
    apply (insert_violation m tm db r _ Htm). apply elem_of_app. right.
    apply reference_violations_elem. exists f, fk, (VInt z).
    repeat split; try done. by apply (referenced_absent db fk t col z).
  - intros (r' & Hin & Hr') db' es Hins He.
    destruct (insert_Err m db db' r es _ Hins He) as [_ [Hbad | (tm & Htm & Hv)]];
      [discriminate |].
    apply elem_of_app in Hv as [Hv | Hv].
    + apply unique_violations_elem in Hv as (g & w & _ & Hg & _). discriminate.
    + apply reference_violations_elem in Hv
        as (g & gk & w & Hg & [= Hn] & Hgk & Hw & _ & Hx).
      assert (g = f) as ->.
      { apply (field_by_name (fields m)); auto.
        apply (model_NoDup m (tables_models m Hm)). }
      rewrite Hfk in Hgk. injection Hgk as <-.
      rewrite Hr in Hw. injection Hw as <-.
      rewrite (referenced_present db fk t col z r' Hs Hin Hr') in Hx. discriminate.
Qed.

Lemma dangling_reference_witness :
  ∃ es, insert OnboardingDetails dangling_details ∅ = (∅, Err es) ∧
        ReferenceError "request_id" ∈ es.
Proof.
  refine (proj1 (proj1 dangling_reference OnboardingDetails
            (Field "request_id" TInt |> with_foreign_key "new_starter_requests.id"
               |> with_unique)
            "new_starter_requests.id" "new_starter_requests" "id" ∅
            dangling_details 999999%Z _ _ _ _ _) _).
  - unfold tables. solve_elem.
  - unfold OnboardingDetails. simpl. solve_elem.
  - reflexivity.
  - reflexivity.
  - vm_compute. reflexivity.
  - intros r' Hin. exfalso. rewrite lookup_total_empty in Hin.
    by apply elem_of_nil in Hin.
Defined.

(** * Further properties of the declarations *)

(** ** Enumerations: members and values *)

(** X1. In each of the five enumerations, looking a member up by its value
    gives the member back, a successful lookup returns a member carrying
    the string looked up, and the strings that look up successfully are
    exactly the closed value set that validation tests against. *)
Theorem enum_value_round_trip :
  ((∀ m, UserRole.of_value (UserRole.value m) = Some m) ∧
   (∀ s m, UserRole.of_value s = Some m → UserRole.value m = s) ∧
   (∀ s, (s ∈ enum_values EUserRole) ↔ is_Some (UserRole.of_value s))) ∧
  ((∀ m, ToolCategory.of_value (ToolCategory.value m) = Some m) ∧
   (∀ s m, ToolCategory.of_value s = Some m → ToolCategory.value m = s) ∧
   (∀ s, (s ∈ enum_values EToolCategory) ↔ is_Some (ToolCategory.of_value s))) ∧
  ((∀ m, OnboardingStatus.of_value (OnboardingStatus.value m) = Some m) ∧
   (∀ s m, OnboardingStatus.of_value s = Some m → OnboardingStatus.value m = s) ∧
   (∀ s, (s ∈ enum_values EOnboardingStatus) ↔ is_Some (OnboardingStatus.of_value s))) ∧
  ((∀ m, InductionStatus.of_value (InductionStatus.value m) = Some m) ∧
   (∀ s m, InductionStatus.of_value s = Some m → InductionStatus.value m = s) ∧
   (∀ s, (s ∈ enum_values EInductionStatus) ↔ is_Some (InductionStatus.of_value s))) ∧
  ((∀ m, ContentType.of_value (ContentType.value m) = Some m) ∧
   (∀ s m, ContentType.of_value s = Some m → ContentType.value m = s) ∧
   (∀ s, (s ∈ enum_values EContentType) ↔ is_Some (ContentType.of_value s))).
Proof.
  split; [| split; [| split; [| split]]].
  - enum_round_trip UserRole.value UserRole.members.
  - enum_round_trip ToolCategory.value ToolCategory.members.
  - enum_round_trip OnboardingStatus.value OnboardingStatus.members.
  - enum_round_trip InductionStatus.value InductionStatus.members.
  - enum_round_trip ContentType.value ContentType.members.
Qed.

Lemma enum_value_round_trip_witness :
  UserRole.value UserRole.VIEWER = "viewer".
Proof.
  apply (proj1 (proj2 (proj1 enum_value_round_trip)) "viewer" UserRole.VIEWER).
  reflexivity.
Defined.

(** ** Missing and unknown keys *)

Lemma check_decimal_cases f d :
  check_decimal f d = Err DecimalMaxDigits ∨
  check_decimal f d = Err DecimalMaxPlaces ∨
  check_decimal f d = Err DecimalWholeDigits ∨
  check_decimal f d = Ok (VDecimal d).
Proof.
  unfold check_decimal.
  destruct (_ && _); [auto |]. destruct (_ && _); [auto |].
  destruct (max_digits f), (decimal_places f); auto.
  destruct (_ <? _); auto.
Qed.

Lemma check_enum_cases c s :
  ((s ∉ enum_values c) ∧ check_enum c s = Err EnumInvalid) ∨
  ((s ∈ enum_values c) ∧ check_enum c s = Ok (VEnum c s)).
Proof.
  unfold check_enum. destruct (decide (s ∈ enum_values c)).
  - right. by rewrite bool_decide_eq_true_2.
  - left. by rewrite bool_decide_eq_false_2.
Qed.

(** The check of a value that is present never answers "missing". *)
Lemma check_value_not_missing f v : check_value f v ≠ Err Missing.
Proof.
  unfold check_value.
  destruct v, (annotation f); try destruct (optional f); try discriminate;
    try (destruct (check_str_cases f s) as [E | [E | E]]; rewrite E; discriminate);
    try (match goal with
         | |- check_decimal ?f ?d ≠ _ =>
             destruct (check_decimal_cases f d) as [E | [E | [E | E]]];
             rewrite E; discriminate
         end);
    try (match goal with
         | |- check_enum ?c ?s ≠ _ =>
             destruct (check_enum_cases c s) as [[_ E] | [_ E]];
             rewrite E; discriminate
         end).
  all: destruct (bool_decide _); try discriminate.
  all: match goal with
       | |- check_enum ?c ?s ≠ _ =>
           destruct (check_enum_cases c s) as [[_ E] | [_ E]];
           rewrite E; discriminate
       end.
Qed.

(** X2. Validation reports a field as missing exactly when the payload
    does not hold its key and the field declares no default; so a payload
    that validates holds every field declared without a default. *)
Theorem missing_field_reported (m : Model) (now : Z) (p : payload) :
  (∀ k, (k, Missing) ∈ errors m now p ↔
        p !! k = None ∧ ∃ f, f ∈ fields m ∧ name f = k ∧ default f = NoDefault) ∧
  (∀ u f, validate m now p = Ok u → f ∈ fields m → default f = NoDefault →
          is_Some (p !! name f)).
Proof.
  assert (∀ k, (k, Missing) ∈ errors m now p ↔
        p !! k = None ∧ ∃ f, f ∈ fields m ∧ name f = k ∧ default f = NoDefault)
    as Hiff.
  { intros k. rewrite errors_elem. split.
    - intros (f & Hf & <- & Ho). unfold field_outcome in Ho.
      destruct (p !! name f) as [v|] eqn:E.
      + by destruct (check_value_not_missing f v).
      + split; [done |]. exists f. repeat split; try done.
        by destruct (default f).
    - intros (Hp & f & Hf & <- & Hd). exists f. repeat split; try done.
      unfold field_outcome. by rewrite Hp, Hd. }
  split; [done |].
  intros u f (He & _)%validate_Ok Hf Hd.
  destruct (p !! name f) as [v|] eqn:E; [eauto |]. exfalso.
  assert ((name f, Missing) ∈ errors m now p) as Hin by (apply Hiff; eauto).
  rewrite He in Hin. by apply elem_of_nil in Hin.
Qed.

Lemma missing_field_reported_witness :
  ("last_name", Missing)
    ∈ errors UserCreate 0 (list_to_map [("email", VStr "a@example.com");
                                        ("first_name", VStr "Al")]).
Proof.
  apply (proj2 (proj1 (missing_field_reported UserCreate 0%Z
           (list_to_map [("email", VStr "a@example.com");
                         ("first_name", VStr "Al")])) "last_name")).
  split; [vm_compute; reflexivity |].
  exists (Field "last_name" TStr |> with_max_length 100).
  split; [unfold UserCreate; simpl; solve_elem | done].
Defined.

(** X3. A validated instance holds a value for every declared field of its
    model and for no other key. *)
Theorem instance_has_declared_fields (m : Model) (now : Z) (p : payload)
    (u : Instance) (k : string) :
  m ∈ models → validate m now p = Ok u →
  is_Some (values u !! k) ↔ k ∈ field_names m.
Proof.
  intros Hm Hu. split.
  - intros [v Hv]. destruct (decide (k ∈ field_names m)) as [Hk | Hk]; [done |].
    rewrite (validate_value_absent m now p u k Hu Hk) in Hv. discriminate.
  - intros (f & -> & Hf)%list_elem_of_fmap.
    destruct (validate_value m now p u f (model_NoDup m Hm) Hu Hf) as (v & _ & Hv).
    eauto.
Qed.

Lemma instance_has_declared_fields_witness :
  is_Some (values (instance_of ProjectMembership 5 membership_without_role)
             !! "joined_at")
  ↔ "joined_at" ∈ field_names ProjectMembership.
Proof.
  apply (instance_has_declared_fields ProjectMembership 5%Z
           membership_without_role).
  - unfold models, tables. simpl. solve_elem.
  - vm_compute. reflexivity.
Defined.

Lemma omap_ext_in {A B} (f g : A → option B) (l : list A) :
  (∀ x, x ∈ l → f x = g x) → omap f l = omap g l.
Proof.
  induction l as [|a l IH]; intros H; [done |].
  change (omap f (a :: l))
    with (match f a with Some y => y :: omap f l | None => omap f l end).
  change (omap g (a :: l))
    with (match g a with Some y => y :: omap g l | None => omap g l end).
  rewrite (H a) by apply list_elem_of_here.
  rewrite IH; [done |]. intros x Hx. apply H. by apply list_elem_of_further.
Qed.

(** X4. A key that is no field of the model is ignored: adding it to a
    payload changes nothing of the outcome of validation, neither the
    failures nor the instance nor the set of fields counted as given. *)
Theorem unknown_key_ignored (m : Model) (now : Z) (p : payload) (k : string)
    (v : value) :
  k ∉ field_names m → validate m now (<[k := v]> p) = validate m now p.
Proof.
  intros Hk.
  assert (∀ f, f ∈ fields m →
            field_outcome now (<[k := v]> p) f = field_outcome now p f) as Hout.
  { intros f Hf. unfold field_outcome. rewrite lookup_insert_ne; [done |].
    intros ->. apply Hk. by apply field_name_elem. }
  assert (errors m now (<[k := v]> p) = errors m now p) as He.
  { unfold errors. apply omap_ext_in. intros f Hf. by rewrite Hout. }
  assert (validated m now (<[k := v]> p) = validated m now p) as Hv.
  { unfold validated. apply omap_ext_in. intros f Hf. by rewrite Hout. }
  unfold validate, instance_of. rewrite He, Hv.
  replace (dom (<[k := v]> p) ∩ list_to_set (field_names m))
    with (dom p ∩ (list_to_set (field_names m) : gset string)); [done |].
  rewrite dom_insert_L.
  assert (k ∉ (list_to_set (field_names m) : gset string)) as Hk'
      by by rewrite elem_of_list_to_set.
  set_solver.
Qed.

Lemma unknown_key_ignored_witness :
  validate UserUpdate 0 (<["email" := VStr "new@example.com"]>
                           {["first_name" := VStr "Bo"]})
  = validate UserUpdate 0 {["first_name" := VStr "Bo"]}.
Proof.
  apply (unknown_key_ignored UserUpdate 0%Z {["first_name" := VStr "Bo"]}
           "email" (VStr "new@example.com")).
  apply (bool_decide_unpack _). vm_compute. exact I.
Defined.

(** ** Defaults, nulls and revalidation *)

Lemma defaults_valid :
  forallb (λ m, forallb default_valid (fields m)) models = true.
Proof. vm_compute. reflexivity. Qed.

Lemma default_passes m f d :
  m ∈ models → f ∈ fields m → default f = Default d → check_value f d = Ok d.
Proof.
  intros Hm Hf Hd.
  pose proof (forallb_elem _ _ _ defaults_valid Hm) as H. simpl in H.
  pose proof (forallb_elem _ _ _ H Hf) as H'. unfold default_valid in H'.
  rewrite Hd in H'. destruct (check_value f d) as [w|]; [| discriminate].
  by apply value_eqb_sound in H' as ->.
Qed.

Lemma factory_passes m f t :
  m ∈ models → f ∈ fields m → default f = DefaultFactoryUtcnow →
  check_value f (VDatetime t) = Ok (VDatetime t).
Proof.
  intros Hm Hf Hd.
  pose proof (forallb_elem _ _ _ defaults_valid Hm) as H. simpl in H.
  pose proof (forallb_elem _ _ _ H Hf) as H'. unfold default_valid in H'.
  rewrite Hd in H'. unfold check_value.
  by destruct (annotation f).
Qed.

(** X5. Every default declared in the source satisfies the constraints of
    its own field, so that a row built from defaults alone would pass the
    validation that defaults themselves skip; and every field whose default
    is drawn from [datetime.utcnow] is a [datetime] field. *)
Theorem declared_defaults_valid (m : Model) (f : FieldInfo) :
  m ∈ models → f ∈ fields m →
  (∀ d, default f = Default d → check_value f d = Ok d) ∧
  (default f = DefaultFactoryUtcnow →
     annotation f = TDatetime ∧
     ∀ t, check_value f (VDatetime t) = Ok (VDatetime t)).
Proof.
  intros Hm Hf. split.
  - intros d Hd. by apply (default_passes m).
  - intros Hd. split; [| intros t; by apply (factory_passes m)].
    pose proof (forallb_elem _ _ _ defaults_valid Hm) as H. simpl in H.
    pose proof (forallb_elem _ _ _ H Hf) as H'. unfold default_valid in H'.
    rewrite Hd in H'. by destruct (annotation f).
Qed.

Lemma declared_defaults_valid_witness :
  check_value completion_percentage (VDecimal (mkDecimal false [0] 0))
  = Ok (VDecimal (mkDecimal false [0] 0)).
Proof.
  refine (proj1 (declared_defaults_valid InductionProgress completion_percentage
                   _ _) (VDecimal (mkDecimal false [0] 0)) _).
  - unfold models, tables. simpl. solve_elem.
  - unfold InductionProgress. solve_elem.
  - reflexivity.
Defined.

(** A checked value passes the same check again, unchanged. *)
Lemma check_value_idem f v w : check_value f v = Ok w → check_value f w = Ok w.
Proof.
  intros H. unfold check_value in H.
  destruct v as [|b|z|s|t|d|c' s|d|l].
  - destruct (optional f) eqn:E; [| discriminate]. injection H as <-.
    unfold check_value. by rewrite E.
  - destruct (annotation f) eqn:Ha; try discriminate. injection H as <-.
    unfold check_value. by rewrite Ha.
  - destruct (annotation f) eqn:Ha; try discriminate.
    + injection H as <-. unfold check_value. by rewrite Ha.
    + destruct (check_decimal_cases f (Decimal_of_int z)) as [E | [E | [E | E]]];
        rewrite E in H; try discriminate.
      injection H as <-. unfold check_value. by rewrite Ha.
  - destruct (annotation f) eqn:Ha; try discriminate.
    + destruct (check_str_cases f s) as [E | [E | E]];
        rewrite E in H; try discriminate.
      injection H as <-. unfold check_value. by rewrite Ha.
    + destruct (check_enum_cases c s) as [[_ E] | [_ E]];
        rewrite E in H; try discriminate.
      injection H as <-. unfold check_value. rewrite Ha.
      by rewrite bool_decide_eq_true_2.
  - destruct (annotation f) eqn:Ha; try discriminate. injection H as <-.
    unfold check_value. by rewrite Ha.
  - destruct (annotation f) eqn:Ha; try discriminate.
    destruct (check_decimal_cases f d) as [E | [E | [E | E]]];
      rewrite E in H; try discriminate.
    injection H as <-. unfold check_value. by rewrite Ha.
  - destruct (annotation f) eqn:Ha; try discriminate.
    destruct (decide (c' = c)) as [-> | Hne].
    + rewrite bool_decide_eq_true_2 in H by done.
      destruct (check_enum_cases c s) as [[_ E] | [_ E]];
        rewrite E in H; try discriminate.
      injection H as <-. unfold check_value. rewrite Ha.
      by rewrite bool_decide_eq_true_2.
    + rewrite bool_decide_eq_false_2 in H by done. discriminate.
  - destruct (annotation f) eqn:Ha; try discriminate. injection H as <-.
    unfold check_value. by rewrite Ha.
  - destruct (annotation f) eqn:Ha; try discriminate. injection H as <-.
    unfold check_value. by rewrite Ha.
Qed.

(** X6. Validating again what a validated instance holds succeeds, at any
    later time, and gives the same values: dumping an instance and loading
    the dump is the identity on values. *)
Theorem revalidation (m : Model) (now now' : Z) (p : payload) (u : Instance) :
  m ∈ models → validate m now p = Ok u →
  ∃ u', validate m now' (values u) = Ok u' ∧ values u' = values u.
Proof.
  intros Hm Hu. pose proof (model_NoDup m Hm) as Hnd.
  assert (∀ f, f ∈ fields m →
            field_outcome now' (values u) f = field_outcome now p f) as Hout.
  { intros f Hf.
    destruct (validate_value m now p u f Hnd Hu Hf) as (w & Ho & Hw).
    rewrite Ho. unfold field_outcome at 1. rewrite Hw.
    unfold field_outcome in Ho. destruct (p !! name f) as [v|].
    - by apply (check_value_idem f v).
    - destruct (default f) as [|d|] eqn:Hd; try discriminate; injection Ho as <-.
      + by apply (default_passes m).
      + by apply (factory_passes m). }
  assert (errors m now' (values u) = errors m now p) as He.
  { unfold errors. apply omap_ext_in. intros f Hf. by rewrite Hout. }
  assert (validated m now' (values u) = validated m now p) as Hv.
  { unfold validated. apply omap_ext_in. intros f Hf. by rewrite Hout. }
  apply validate_Ok in Hu as (He0 & Hval & _).
  exists (instance_of m now' (values u)). split.
  - unfold validate. by rewrite He, He0.
  - unfold instance_of. simpl. by rewrite Hv, Hval.
Qed.

Lemma revalidation_witness :
  ∃ u', validate ProjectMembership 99
          (values (instance_of ProjectMembership 5 membership_without_role))
        = Ok u' ∧
        values u' = values (instance_of ProjectMembership 5 membership_without_role).
Proof.
  apply (revalidation ProjectMembership 5%Z 99%Z membership_without_role).
  - unfold models, tables. simpl. solve_elem.
  - vm_compute. reflexivity.
Defined.

Lemma optional_fields_default_none :
  forallb (λ m, forallb optional_iff_none (fields m)) models = true.
Proof. vm_compute. reflexivity. Qed.

(** X7. An explicit null is accepted for a field exactly when the field is
    declared [Optional]; for any other field it makes validation fail on
    that field.  The [Optional] fields of the source are exactly those
    whose default is [None]. *)
Theorem null_only_for_optional (m : Model) (f : FieldInfo) (now : Z)
    (p : payload) :
  m ∈ models → f ∈ fields m → p !! name f = Some VNone →
  (optional f = true ↔ default f = Default VNone) ∧
  (optional f = true → ∀ r, (name f, r) ∉ errors m now p) ∧
  (optional f = false →
     ∃ es, validate m now p = Err es ∧ (name f, WrongType) ∈ es).
Proof.
  intros Hm Hf Hp.
  assert (∀ r, (name f, r) ∈ errors m now p ↔ check_value f VNone = Err r) as Hc.
  { intros r. rewrite (errors_field m now p f r (model_NoDup m Hm) Hf).
    unfold field_outcome. by rewrite Hp. }
  split; [| split].
  - pose proof (forallb_elem _ _ _ optional_fields_default_none Hm) as H.
    simpl in H. pose proof (forallb_elem _ _ _ H Hf) as H'.
    unfold optional_iff_none in H'. apply Bool.eqb_prop in H'. rewrite H'. split.
    + apply default_is_sound.
    + intros Hd. unfold default_is. by rewrite Hd.
  - intros Ho r Hin%Hc. unfold check_value in Hin. rewrite Ho in Hin. discriminate.
  - intros Ho. apply validate_Err, Hc. unfold check_value. by rewrite Ho.
Qed.

Lemma null_only_for_optional_witness :
  ∃ es, validate UserCreate 0
          (list_to_map [("email", VStr "a@example.com"); ("first_name", VNone);
                        ("last_name", VStr "Lee")]) = Err es ∧
        ("first_name", WrongType) ∈ es.
Proof.
  refine (proj2 (proj2 (null_only_for_optional UserCreate
            (Field "first_name" TStr |> with_max_length 100) 0%Z
            (list_to_map [("email", VStr "a@example.com"); ("first_name", VNone);
                          ("last_name", VStr "Lee")]) _ _ _)) _).
  - unfold models, tables, schemas. simpl. solve_elem.
  - unfold UserCreate. simpl. solve_elem.
  - vm_compute. reflexivity.
  - reflexivity.
Defined.




(** ** Structure of the schema *)

Lemma fk_targets_declared :
  forallb (λ m, forallb fk_target_declared (fields m)) tables = true.
Proof. vm_compute. reflexivity. Qed.

(** X9. Every foreign key of every table names the [__tablename__] of a
    table declared in the file and, in that table, its primary-key column,
    which has the type of the referencing field: no reference points
    outside the schema. *)
Theorem foreign_keys_target_primary_keys (m : Model) (f : FieldInfo)
    (fk : string) :
  m ∈ tables → f ∈ fields m → foreign_key f = Some fk →
  ∃ t g, t ∈ tables ∧ tablename t = Some (split_dot fk).1 ∧
         g ∈ fields t ∧ name g = (split_dot fk).2 ∧
         primary_key g = true ∧ annotation g = annotation f.
Proof.
  intros Hm Hf Hfk.
  pose proof (forallb_elem _ _ _ fk_targets_declared Hm) as H. simpl in H.
  pose proof (forallb_elem _ _ _ H Hf) as H'. unfold fk_target_declared in H'.
  rewrite Hfk in H'. destruct (split_dot fk) as [tn col]. simpl.
  apply existsb_exists in H' as (t & Ht%list_elem_of_In & H').
  apply andb_true_iff in H' as [Htn H'].
  apply bool_decide_eq_true in Htn.
  apply existsb_exists in H' as (g & Hg%list_elem_of_In & H').
  apply andb_true_iff in H' as [H' Hty]. apply andb_true_iff in H' as [Hn Hpk].
  apply String.eqb_eq in Hn. apply bool_decide_eq_true in Hty.
  exists t, g. done.
Qed.

Lemma foreign_keys_target_primary_keys_witness :
  ∃ t g, t ∈ tables ∧
         tablename t = Some (split_dot "new_starter_requests.id").1 ∧
         g ∈ fields t ∧ name g = (split_dot "new_starter_requests.id").2 ∧
         primary_key g = true ∧
         annotation g
         = annotation (Field "request_id" TInt
                         |> with_foreign_key "new_starter_requests.id"
                         |> with_unique).
Proof.
  apply (foreign_keys_target_primary_keys OnboardingDetails).
  - unfold tables. solve_elem.
  - unfold OnboardingDetails. simpl. solve_elem.
  - reflexivity.
Defined.

Lemma tables_pk_is_id : forallb pk_is_id tables = true.
Proof. vm_compute. reflexivity. Qed.

Lemma schemas_unconstrained : forallb unconstrained schemas = true.
Proof. vm_compute. reflexivity. Qed.

(** X10. The twelve tables have pairwise distinct names; in each the
    primary key is the field [id] and no other, an optional integer left
    [None] until the row is stored.  The validation shapes are no tables
    and declare no primary key, no uniqueness and no foreign key. *)
Theorem table_structure :
  NoDup (tablename <$> tables) ∧
  (∀ m f, m ∈ tables → f ∈ fields m →
          is_Some (tablename m) ∧
          (primary_key f = true ↔ name f = "id") ∧
          (name f = "id" →
             annotation f = TInt ∧ optional f = true ∧ default f = Default VNone)) ∧
  (∀ m f, m ∈ schemas → f ∈ fields m →
          tablename m = None ∧ primary_key f = false ∧ unique f = false ∧
          foreign_key f = None).
Proof.
  split; [| split].
  - apply (bool_decide_unpack _). vm_compute. exact I.
  - intros m f Hm Hf.
    pose proof (forallb_elem _ _ _ tables_pk_is_id Hm) as H.
    unfold pk_is_id in H. apply andb_true_iff in H as [Hall Hid].
    pose proof (forallb_elem _ _ _ Hall Hf) as Hpk. simpl in Hpk.
    apply Bool.eqb_prop in Hpk.
    split; [by apply table_tablename |]. split.
    + rewrite Hpk. apply String.eqb_eq.
    + intros Hn. destruct (get_field m "id") as [g|] eqn:Hg; [| discriminate].
      pose proof (get_field_Some m "id" g Hg) as [Hgin Hgn].
      assert (g = f) as ->.
      { apply (field_by_name (fields m)); try done.
        - apply (model_NoDup m (tables_models m Hm)).
        - by rewrite Hgn, Hn. }
      repeat (apply andb_true_iff in Hid as [Hid ?]).
      repeat split; try done.
      * by apply bool_decide_eq_true in H.
      * by apply default_is_sound.
  - intros m f Hm Hf.
    pose proof (forallb_elem _ _ _ schemas_unconstrained Hm) as H.
    unfold unconstrained in H. apply andb_true_iff in H as [Ht Hall].
    apply bool_decide_eq_true in Ht.
    pose proof (forallb_elem _ _ _ Hall Hf) as Hc. simpl in Hc.
    apply andb_true_iff in Hc as [Hc Hfk]. apply andb_true_iff in Hc as [Hpk Hu].
    apply negb_true_iff in Hpk, Hu. apply bool_decide_eq_true in Hfk. done.
Qed.

Lemma table_structure_witness :
  tablename UserCreate = None ∧
  primary_key (Field "email" TStr |> with_max_length 255) = false ∧
  unique (Field "email" TStr |> with_max_length 255) = false ∧
  foreign_key (Field "email" TStr |> with_max_length 255) = None.
Proof.
  apply (proj2 (proj2 table_structure) UserCreate).
  - unfold schemas. solve_elem.
  - unfold UserCreate. simpl. solve_elem.
Defined.

Lemma create_columns :
  forallb (λ st, forallb (create_column_of st.2) (fields st.1)) create_tables = true.
Proof. vm_compute. reflexivity. Qed.

Lemma update_columns :
  forallb (λ st, forallb (column_of st.2) (fields st.1)) update_tables = true.
Proof. vm_compute. reflexivity. Qed.

(** X11. Every field of a create or update shape is a column of its table
    under the same name, with the same type and the same maximum length;
    a field of a create shape is moreover as optional as the column and
    declares the same default, so that it does not matter whether the shape
    or the table fills an omitted field. *)
Theorem shapes_project_their_tables (s t : Model) (f : FieldInfo) :
  f ∈ fields s →
  ((s, t) ∈ create_tables ++ update_tables →
     ∃ g, g ∈ fields t ∧ name g = name f ∧ annotation g = annotation f ∧
          max_length g = max_length f) ∧
  ((s, t) ∈ create_tables →
     ∃ g, g ∈ fields t ∧ name g = name f ∧ optional g = optional f ∧
          same_default g f = true).
Proof.
  intros Hf.
  assert ((s, t) ∈ create_tables →
          ∃ g, g ∈ fields t ∧ name g = name f ∧ annotation g = annotation f ∧
               max_length g = max_length f ∧ optional g = optional f ∧
               same_default g f = true) as Hcreate.
  { intros Hst.
    pose proof (forallb_elem _ _ _ create_columns Hst) as H. simpl in H.
    pose proof (forallb_elem _ _ _ H Hf) as H'. unfold create_column_of in H'.
    apply existsb_exists in H' as (g & Hg%list_elem_of_In & H').
    apply andb_true_iff in H' as [H' Hsd]. apply andb_true_iff in H' as [H' Hop].
    apply andb_true_iff in H' as [H' Hml]. apply andb_true_iff in H' as [Hn Ha].
    apply String.eqb_eq in Hn. apply bool_decide_eq_true in Ha, Hml.
    apply Bool.eqb_prop in Hop.
    exists g. done. }
  split.
  - intros [Hst | Hst]%elem_of_app.
    + destruct (Hcreate Hst) as (g & ? & ? & ? & ? & _). eauto.
    + pose proof (forallb_elem _ _ _ update_columns Hst) as H. simpl in H.
      pose proof (forallb_elem _ _ _ H Hf) as H'. unfold column_of in H'.
      apply existsb_exists in H' as (g & Hg%list_elem_of_In & H').
      apply andb_true_iff in H' as [H' Hml]. apply andb_true_iff in H' as [Hn Ha].
      apply String.eqb_eq in Hn. apply bool_decide_eq_true in Ha, Hml.
      exists g. done.
  - intros Hst. destruct (Hcreate Hst) as (g & ? & ? & _ & _ & ? & ?). eauto.
Qed.

Lemma shapes_project_their_tables_witness :
  ∃ g, g ∈ fields Project ∧ name g = name (opt_str "description" 2000) ∧
       annotation g = annotation (opt_str "description" 2000) ∧
       max_length g = max_length (opt_str "description" 2000).
Proof.
  refine (proj1 (shapes_project_their_tables ProjectUpdate Project
                   (opt_str "description" 2000) _) _).
  - unfold ProjectUpdate. simpl. solve_elem.
  - unfold create_tables, update_tables. simpl. solve_elem.
Defined.

(** ** From a create shape to its table *)

(** What a field contributes to an instance passes the field's check. *)
Lemma outcome_revalidates m now (p : payload) f w :
  m ∈ models → f ∈ fields m → field_outcome now p f = Ok w →
  check_value f w = Ok w.
Proof.
  intros Hm Hf Ho. unfold field_outcome in Ho. destruct (p !! name f) as [v|].
  - by apply (check_value_idem f v).
  - destruct (default f) as [|d|] eqn:Hd; try discriminate; injection Ho as <-.
    + by apply (default_passes m).
    + by apply (factory_passes m).
Qed.

Lemma same_constraints_check f g v :
  same_constraints f g = true → check_value f v = check_value g v.
Proof.
  unfold same_constraints. intros H.
  apply andb_true_iff in H as [H Hdp]. apply andb_true_iff in H as [H Hmd].
  apply andb_true_iff in H as [H Hre]. apply andb_true_iff in H as [H Hml].
  apply andb_true_iff in H as [Ha Hop].
  apply bool_decide_eq_true in Ha, Hml, Hmd, Hdp. apply Bool.eqb_prop in Hop.
  unfold check_value, check_str, check_decimal.
  rewrite Ha, Hop, Hml, Hmd, Hdp.
  destruct (regex f), (regex g); try discriminate. done.
Qed.

Lemma create_tables_models s t :
  (s, t) ∈ create_tables → s ∈ models ∧ t ∈ models.
Proof.
  intros H. unfold create_tables in H.
  repeat (apply elem_of_cons in H as [[= -> ->] | H];
          [split; unfold models, tables, schemas; simpl; solve_elem |]).
  by apply elem_of_nil in H.
Qed.

Lemma create_tables_fed :
  forallb (λ st, forallb (fed_by st.1 st.2) (fields st.2)) create_tables = true.
Proof. vm_compute. reflexivity. Qed.

(** A string that a field accepts is within the field's maximum length. *)
Lemma check_str_Ok_length f s w n :
  check_str f s = Ok w → max_length f = Some n → String.length s ≤ n.
Proof.
  intros H Hn. destruct (Nat.le_gt_cases (String.length s) n) as [? | Hlt]; [done |].
  assert (check_str f s = Err StringTooLong) as E
      by (apply check_str_too_long; eauto).
  congruence.
Qed.

(** X12. What a create shape has validated is acceptable to its table:
    when the values of a validated create instance are handed to the table
    model, the only failures the table can report are the required
    server-side columns that no shape carries ([Project.created_by_id],
    [NewStarterRequest.manager_id], [OnboardingDetails.new_starter_id]),
    reported missing, and, for [User], a format failure on [email], whose
    pattern the create shape does not declare. *)
Theorem create_instance_feeds_table (s t : Model) (now now' : Z) (p : payload)
    (u : Instance) (k : string) (r : reason) :
  (s, t) ∈ create_tables → validate s now p = Ok u →
  (k, r) ∈ errors t now' (values u) →
  (r = Missing ∧ (tablename t, k) ∈ server_side) ∨
  (tablename t = Some "users" ∧ k = "email" ∧ r = PatternMismatch).
Proof.
  intros Hst Hu Hin.
  destruct (create_tables_models s t Hst) as [Hs Ht].
  pose proof (forallb_elem _ _ _ create_tables_fed Hst) as Hfed. simpl in Hfed.
  apply errors_elem in Hin as (g & Hg & <- & Ho).
  pose proof (forallb_elem _ _ _ Hfed Hg) as Hb. unfold fed_by in Hb.
  destruct (decide (name g ∈ field_names s)) as [Hn | Hn].
  - rewrite bool_decide_eq_true_2 in Hb by done.
    apply existsb_exists in Hb as (f & Hf%list_elem_of_In & Hb).
    apply andb_true_iff in Hb as [Hname Hb]. apply String.eqb_eq in Hname.
    destruct (validate_value s now p u f (model_NoDup s Hs) Hu Hf)
      as (w & Hw & Hval).
    pose proof (outcome_revalidates s now p f w Hs Hf Hw) as Hre.
    unfold field_outcome in Ho. rewrite <- Hname, Hval in Ho.
    apply orb_true_iff in Hb as [Hsame | Hmail].
    + rewrite (same_constraints_check f g w Hsame) in Hre. congruence.
    + right.
      apply andb_true_iff in Hmail as [Hmail Hml].
      apply andb_true_iff in Hmail as [Hmail Hop].
      apply andb_true_iff in Hmail as [Hmail Hag].
      apply andb_true_iff in Hmail as [Hmail Haf].
      apply andb_true_iff in Hmail as [Htab Hem].
      apply bool_decide_eq_true in Htab, Haf, Hag, Hml.
      apply Bool.eqb_prop in Hop. apply String.eqb_eq in Hem.
      split; [done |]. split; [done |].
      unfold check_value in Hre, Ho. rewrite Haf in Hre. rewrite Hag in Ho.
      destruct w as [| | |s0| | | | |]; try discriminate.
      * rewrite <- Hop in Ho. destruct (optional f); congruence.
      * destruct (check_str_cases g s0) as [E | [E | E]]; try congruence.
        apply check_str_too_long in E as (n & Hn' & Hlt).
        rewrite <- Hml in Hn'.
        pose proof (check_str_Ok_length f s0 _ n Hre Hn'). lia.
  - rewrite bool_decide_eq_false_2 in Hb by done.
    unfold field_outcome in Ho.
    rewrite (validate_value_absent s now p u (name g) Hu Hn) in Ho.
    left. destruct (default g); try discriminate.
    injection Ho as <-. split; [done |]. by apply bool_decide_eq_true in Hb.
Qed.

Lemma create_instance_feeds_table_witness :
  (tablename Project, "created_by_id") ∈ server_side.
Proof.
  destruct (create_instance_feeds_table ProjectCreate Project 1%Z 2%Z
              project_create_payload
              (instance_of ProjectCreate 1 project_create_payload)
              "created_by_id" Missing) as [[_ H] | (_ & _ & H)].
  - unfold create_tables. solve_elem.
  - vm_compute. reflexivity.
  - vm_compute. solve_elem.
  - exact H.
  - discriminate H.
Defined.

(** ** The email pattern, spelled out *)

















(** ** Range of the completion percentage *)

Lemma normalize_negate d :
  digits_of (normalize (negate d)) = digits_of (normalize d) ∧
  decimals_of (normalize (negate d)) = decimals_of (normalize d).
Proof.
  unfold normalize, negate. cbn [digits exponent sign].
  destruct (forallb (Nat.eqb 0) (digits d)); [done |].
  by destruct (strip_zeros (rev (digits d)) (exponent d)).
Qed.

Lemma check_decimal_negate f d :
  check_decimal f (negate d)
  = match check_decimal f d with
    | Ok _ => Ok (VDecimal (negate d))
    | Err r => Err r
    end.
Proof.
  unfold check_decimal.
  destruct (normalize_negate d) as [-> ->].
  change (digits_of (negate d)) with (digits_of d).
  change (decimals_of (negate d)) with (decimals_of d).
  destruct (_ && _); [done |]. destruct (_ && _); [done |].
  destruct (max_digits f), (decimal_places f); try done.
  by destruct (_ <? _).
Qed.

Lemma check_percentage_Ok_whole d w :
  check_decimal completion_percentage d = Ok w →
  digits_of d - decimals_of d ≤ 3.
Proof.
  unfold check_decimal. simpl.
  destruct (_ && _); [discriminate |]. destruct (_ && _); [discriminate |].
  destruct (Nat.ltb_spec 3 (digits_of d - decimals_of d)); [discriminate | done].
Qed.

Lemma coefficient_bound ds :
  Forall (λ x, x < 10) ds →
  ∀ acc, (0 ≤ acc)%Z →
    (foldl (λ a x, 10 * a + Z.of_nat x) acc ds
     < (acc + 1) * 10 ^ Z.of_nat (length ds))%Z.
Proof.
  induction 1 as [|x ds Hx _ IH]; intros acc Hacc; simpl foldl.
  - simpl. lia.
  - specialize (IH (10 * acc + Z.of_nat x)%Z ltac:(lia)).
    rewrite length_cons, Nat2Z.inj_succ, Z.pow_succ_r by lia.
    assert (0 < 10 ^ Z.of_nat (length ds))%Z by (apply Z.pow_pos_nonneg; lia).
    nia.
Qed.

(** X15. The check of [completion_percentage] does not look at the sign: a
    decimal is accepted exactly when its opposite is, so negative
    percentages pass.  And every accepted decimal, its digits being
    digits, is below 1000 in magnitude: the bound that [max_digits=5] with
    [decimal_places=2] enforces is 1000, not 100. *)
Theorem percentage_sign_and_magnitude (d : Decimal) :
  (accepts_percentage (VDecimal d) ↔ accepts_percentage (VDecimal (negate d))) ∧
  (Forall (λ x, x < 10) (digits d) → accepts_percentage (VDecimal d) →
   below_1000 d).
Proof.
  split.
  - rewrite !accepts_percentage_iff.
    change (check_value completion_percentage (VDecimal (negate d)))
      with (check_decimal completion_percentage (negate d)).
    change (check_value completion_percentage (VDecimal d))
      with (check_decimal completion_percentage d).
    rewrite check_decimal_negate.
    destruct (check_decimal completion_percentage d); split;
      intros [w Hw]; try discriminate; eauto.
  - intros Hds [w Hw]%accepts_percentage_iff.
    change (check_value completion_percentage (VDecimal d))
      with (check_decimal completion_percentage d) in Hw.
    apply check_percentage_Ok_whole in Hw.
    pose proof (coefficient_bound (digits d) Hds 0%Z ltac:(lia)) as Hc.
    fold (coefficient (digits d)) in Hc. rewrite Z.add_0_l, Z.mul_1_l in Hc.
    unfold below_1000. unfold digits_of, decimals_of in Hw.
    destruct (Z.leb_spec 0 (exponent d)) as [He | He].
    + assert (Z.of_nat (length (digits d)) + exponent d ≤ 3)%Z as Hle by lia.
      assert (0 < 10 ^ exponent d)%Z by (apply Z.pow_pos_nonneg; lia).
      assert (coefficient (digits d) * 10 ^ exponent d
              < 10 ^ Z.of_nat (length (digits d)) * 10 ^ exponent d)%Z by nia.
      rewrite <- Z.pow_add_r in H0 by lia.
      assert (10 ^ (Z.of_nat (length (digits d)) + exponent d) ≤ 10 ^ 3)%Z
        by (apply Z.pow_le_mono_r; lia).
      lia.
    + assert (Z.of_nat (length (digits d)) ≤ 3 + - exponent d)%Z as Hle by lia.
      assert (10 ^ Z.of_nat (length (digits d)) ≤ 10 ^ (3 + - exponent d))%Z
        by (apply Z.pow_le_mono_r; lia).
      rewrite Z.pow_add_r in H by lia. lia.
Qed.

Lemma percentage_sign_and_magnitude_witness :
  below_1000 (mkDecimal true [5; 0; 2; 5] (-2)).
Proof.
  apply (proj2 (percentage_sign_and_magnitude (mkDecimal true [5; 0; 2; 5] (-2)))).
  - repeat constructor.
  - apply accepts_percentage_iff. eexists. vm_compute. reflexivity.
Defined.

(** ** What the shapes leave out *)

Lemma update_fields_optional :
  forallb (λ st, forallb (λ f, optional f && default_is f VNone) (fields st.1))
    update_tables = true.
Proof. vm_compute. reflexivity. Qed.

(** X16. In [UserUpdate] and [ProjectUpdate] every field is optional with
    default [None]: no payload, the empty one included, is ever refused for
    a missing field, and a field the payload leaves out is [None] in the
    instance and is not counted among the fields given. *)
Theorem update_shapes_require_nothing (s t : Model) (now : Z) (p : payload) :
  (s, t) ∈ update_tables →
  (∀ k, (k, Missing) ∉ errors s now p) ∧
  (∀ u f, validate s now p = Ok u → f ∈ fields s → p !! name f = None →
          values u !! name f = Some VNone ∧ name f ∉ fields_set u) ∧
  (∃ u, validate s now ∅ = Ok u ∧ fields_set u = ∅).
Proof.
  intros Hst.
  pose proof (forallb_elem _ _ _ update_fields_optional Hst) as Hall. simpl in Hall.
  assert (s ∈ models) as Hs.
  { unfold update_tables in Hst.
    repeat (apply elem_of_cons in Hst as [[= -> ->] | Hst];
            [unfold models, tables, schemas; simpl; solve_elem |]).
    by apply elem_of_nil in Hst. }
  assert (∀ q k, (k, Missing) ∉ errors s now q) as Hnm.
  { intros q k (f & Hf & <- & Ho)%errors_elem.
    pose proof (forallb_elem _ _ _ Hall Hf) as Hb. simpl in Hb.
    apply andb_true_iff in Hb as [_ Hd%default_is_sound].
    unfold field_outcome in Ho. rewrite Hd in Ho.
    destruct (q !! name f) as [v|]; [| discriminate].
    by destruct (check_value_not_missing f v). }
  split; [apply Hnm |]. split.
  - intros u f Hu Hf Hp. split.
    + pose proof (forallb_elem _ _ _ Hall Hf) as Hb. simpl in Hb.
      apply andb_true_iff in Hb as [_ Hd%default_is_sound].
      by apply (omitted_default s now p u f VNone).
    + intros [[v Hv] _]%(validate_fields_set s now p u (name f) Hu). congruence.
  - exists (instance_of s now ∅). split.
    + unfold validate.
      destruct (errors s now ∅) as [|[k r] es] eqn:E; [done |]. exfalso.
      assert ((k, r) ∈ errors s now ∅) as Hin
          by (rewrite E; apply list_elem_of_here).
      pose proof Hin as Hin'.
      apply errors_elem in Hin as (f & Hf & <- & Ho).
      unfold field_outcome in Ho. rewrite lookup_empty in Ho.
      destruct (default f); try discriminate. injection Ho as <-.
      by apply (Hnm ∅ (name f)).
    + unfold instance_of. simpl. rewrite dom_empty_L. set_solver.
Qed.

Lemma update_shapes_require_nothing_witness :
  ∃ u, validate ProjectUpdate 0 ∅ = Ok u ∧ fields_set u = ∅.
Proof.
  refine (proj2 (proj2 (update_shapes_require_nothing ProjectUpdate Project
                          0%Z ∅ _))).
  unfold update_tables. solve_elem.
Defined.

Lemma shapes_lack_server_managed :
  forallb (λ m, forallb (λ k, negb (bool_decide (k ∈ field_names m)))
                  server_managed) schemas = true.
Proof. vm_compute. reflexivity. Qed.

(** X17. No validation shape declares [id], [created_at] or [updated_at]:
    whatever a create or update payload holds under these keys is dropped,
    and a validated instance of a shape never carries them. *)
Theorem shapes_cannot_set_server_columns (m : Model) (k : string) (now : Z)
    (p : payload) (u : Instance) :
  m ∈ schemas → k ∈ server_managed → validate m now p = Ok u →
  (k ∉ field_names m) ∧ values u !! k = None ∧ (k ∉ fields_set u).
Proof.
  intros Hm Hk Hu.
  pose proof (forallb_elem _ _ _ shapes_lack_server_managed Hm) as H.
  cbv beta in H.
  pose proof (forallb_elem _ _ _ H Hk) as Hb. cbv beta in Hb.
  apply negb_true_iff, bool_decide_eq_false in Hb.
  split; [done |]. split.
  - by apply (validate_value_absent m now p u k Hu).
  - by intros [_ Hin]%(validate_fields_set m now p u k Hu).
Qed.

Lemma shapes_cannot_set_server_columns_witness :
  ("id" ∉ field_names UserCreate) ∧
  values (instance_of UserCreate 0
            (list_to_map [("id", VInt 42); ("email", VStr "a@example.com");
                          ("first_name", VStr "Al"); ("last_name", VStr "Lee")]))
    !! "id" = None ∧
  ("id" ∉ fields_set
            (instance_of UserCreate 0
               (list_to_map [("id", VInt 42); ("email", VStr "a@example.com");
                             ("first_name", VStr "Al"); ("last_name", VStr "Lee")]))).
Proof.
  apply (shapes_cannot_set_server_columns UserCreate "id" 0%Z
           (list_to_map [("id", VInt 42); ("email", VStr "a@example.com");
                         ("first_name", VStr "Al"); ("last_name", VStr "Lee")])).
  - unfold schemas. solve_elem.
  - unfold server_managed. solve_elem.
  - vm_compute. reflexivity.
Defined.

(** X18. A string field that declares a maximum length and no pattern
    accepts a string exactly when its length is within the bound, the empty
    string included, required or not; and the only failure such a field
    ever reports for a string is its length. *)
Theorem bounded_string_accepted_iff (m : Model) (f : FieldInfo) (L : nat)
    (now : Z) (p : payload) (s : string) :
  m ∈ models → f ∈ fields m → max_length f = Some L → regex f = None →
  p !! name f = Some (VStr s) →
  ((∀ r, (name f, r) ∉ errors m now p) ↔ String.length s ≤ L) ∧
  (∀ r, (name f, r) ∈ errors m now p → r = StringTooLong) ∧
  (s = "" → ∀ r, (name f, r) ∉ errors m now p).
Proof.
  intros Hm Hf HL Hre Hp.
  pose proof (bounded_field_str m f L Hm Hf HL) as Hty.
  assert (∀ r, (name f, r) ∈ errors m now p ↔ check_str f s = Err r) as Hc.
  { intros r. rewrite (errors_field m now p f r (model_NoDup m Hm) Hf).
    unfold field_outcome. rewrite Hp. by rewrite check_value_str. }
  assert (String.length s ≤ L → ∀ r, (name f, r) ∉ errors m now p) as Hok.
  { intros Hlen r Hin%Hc.
    rewrite (check_str_no_regex f s L HL Hre Hlen) in Hin. discriminate. }
  split; [| split].
  - split; [| apply Hok]. intros Hno.
    destruct (Nat.le_gt_cases (String.length s) L) as [? | Hlt]; [done |].
    destruct (Hno StringTooLong). apply Hc, check_str_too_long. eauto.
  - intros r Hin%Hc.
    destruct (check_str_cases f s) as [E | [E | E]]; try congruence.
    apply check_str_mismatch in E as (_ & re & Hsome & _). congruence.
  - intros -> . apply Hok. simpl. lia.
Qed.

Lemma bounded_string_accepted_iff_witness :
  ("first_name", StringTooLong)
    ∉ errors UserCreate 0
        (list_to_map [("email", VStr "a@example.com"); ("first_name", VStr "");
                      ("last_name", VStr "Lee")]).
Proof.
  refine (proj2 (proj2 (bounded_string_accepted_iff UserCreate
            (Field "first_name" TStr |> with_max_length 100) 100 0%Z
            (list_to_map [("email", VStr "a@example.com"); ("first_name", VStr "");
                          ("last_name", VStr "Lee")]) "" _ _ _ _ _)) eq_refl
            StringTooLong).
  - unfold models, tables, schemas. simpl. solve_elem.
  - unfold UserCreate. simpl. solve_elem.
  - reflexivity.
  - reflexivity.
  - vm_compute. reflexivity.
Defined.

(** ** Relationships and the columns under them *)

Lemma relationships_mirrored_b : forallb mirrored relationships = true.
Proof. vm_compute. reflexivity. Qed.

Lemma relationships_fresh_names :
  forallb (λ r, negb (bool_decide (attr r ∈ field_names (owner r))))
    relationships = true.
Proof. vm_compute. reflexivity. Qed.

(** X19. Every relationship attribute has its mirror image: the attribute
    that [back_populates] names exists on the target class, points back at
    the declaring class and names the first attribute in return; the two
    sides are never both lists, so no relationship is many-to-many; and no
    relationship attribute bears the name of a column of its class. *)
Theorem relationships_mirrored (r : Relationship) :
  r ∈ relationships →
  (∃ r', r' ∈ relationships ∧
         table_of (owner r') = table_of (target r) ∧
         table_of (target r') = table_of (owner r) ∧
         attr r' = back_populates r ∧ back_populates r' = attr r ∧
         (is_list r = true → is_list r' = false)) ∧
  (attr r ∉ field_names (owner r)).
Proof.
  intros Hr. split.
  - pose proof (forallb_elem _ _ _ relationships_mirrored_b Hr) as H.
    unfold mirrored in H.
    apply existsb_exists in H as (r' & Hr'%list_elem_of_In & H).
    apply andb_true_iff in H as [H Hl]. apply andb_true_iff in H as [H Hb].
    apply andb_true_iff in H as [H Ha]. apply andb_true_iff in H as [Ho Ht].
    apply String.eqb_eq in Ho, Ht, Ha, Hb. apply negb_true_iff in Hl.
    exists r'. repeat split; try done.
    intros Hlist. rewrite Hlist in Hl. simpl in Hl. done.
  - pose proof (forallb_elem _ _ _ relationships_fresh_names Hr) as H.
    cbv beta in H. by apply negb_true_iff, bool_decide_eq_false in H.
Qed.

Lemma relationships_mirrored_witness :
  (∃ r', r' ∈ relationships ∧
         table_of (owner r') = table_of OnboardingDetails ∧
         table_of (target r') = table_of NewStarterRequest ∧
         attr r' = "request" ∧ back_populates r' = "onboarding_details" ∧
         (false = true → is_list r' = false)) ∧
  ("onboarding_details" ∉ field_names NewStarterRequest).
Proof.
  apply (relationships_mirrored
           (to_optional NewStarterRequest "onboarding_details" OnboardingDetails
              "request")).
  unfold relationships. solve_elem.
Defined.

Lemma relationships_backed : forallb backed_by_column relationships = true.
Proof. vm_compute. reflexivity. Qed.

Lemma foreign_keys_navigable :
  forallb (λ m, forallb (navigable m) (fields m)) tables = true.
Proof. vm_compute. reflexivity. Qed.

(** X20. Every relationship to one required row rests on a column of its
    class named after the attribute, [<attr>_id], that is a foreign key to
    the [id] of the target's table.  Conversely every foreign-key column of
    every table is the column of such a relationship, with one exception:
    [InductionProgress.chapter_id] references [induction_chapters.id] and
    has no relationship attribute. *)
Theorem relationships_and_foreign_keys :
  (∀ r, r ∈ relationships → is_list r = false → is_optional r = false →
        ∃ f, f ∈ fields (owner r) ∧ name f = attr r +:+ "_id" ∧
             foreign_key f = Some (table_of (target r) +:+ ".id")) ∧
  (∀ m f fk, m ∈ tables → f ∈ fields m → foreign_key f = Some fk →
        (∃ r, r ∈ relationships ∧ table_of (owner r) = table_of m ∧
              is_list r = false ∧ attr r +:+ "_id" = name f ∧
              table_of (target r) +:+ ".id" = fk) ∨
        (table_of m = "induction_progress" ∧ name f = "chapter_id" ∧
         fk = "induction_chapters.id")).
Proof.
  split.
  - intros r Hr Hl Ho.
    pose proof (forallb_elem _ _ _ relationships_backed Hr) as H.
    unfold backed_by_column in H. rewrite Hl, Ho in H. simpl in H.
    apply existsb_exists in H as (f & Hf%list_elem_of_In & H).
    apply andb_true_iff in H as [Hn Hk].
    apply String.eqb_eq in Hn. apply bool_decide_eq_true in Hk. eauto.
  - intros m f fk Hm Hf Hfk.
    pose proof (forallb_elem _ _ _ foreign_keys_navigable Hm) as H. cbv beta in H.
    pose proof (forallb_elem _ _ _ H Hf) as Hb. unfold navigable in Hb.
    rewrite Hfk in Hb. apply orb_true_iff in Hb as [Hb | Hb].
    + left. apply existsb_exists in Hb as (r & Hr%list_elem_of_In & Hb).
      apply andb_true_iff in Hb as [Hb Hk]. apply andb_true_iff in Hb as [Hb Hn].
      apply andb_true_iff in Hb as [Ho Hl].
      apply String.eqb_eq in Ho, Hn, Hk. apply negb_true_iff in Hl.
      exists r. done.
    + right. apply andb_true_iff in Hb as [Ht Hn].
      apply String.eqb_eq in Ht, Hn. split; [done |]. split; [done |].
      unfold tables in Hm.
      repeat (apply elem_of_cons in Hm as [-> | Hm];
              [try discriminate Ht | ]).
      * unfold InductionProgress in Hf. simpl in Hf.
        repeat (apply elem_of_cons in Hf as [-> | Hf];
                [try discriminate Hn; try discriminate Hfk |]).
        -- simpl in Hfk. by injection Hfk as <-.
        -- by apply elem_of_nil in Hf.
      * by apply elem_of_nil in Hm.
Qed.

Lemma relationships_and_foreign_keys_witness :
  ∃ f, f ∈ fields Project ∧ name f = "created_by" +:+ "_id" ∧
       foreign_key f = Some (table_of User +:+ ".id").
Proof.
  apply (proj1 relationships_and_foreign_keys
           (to_one Project "created_by" User "created_projects")).
  - unfold relationships. solve_elem.
  - reflexivity.
  - reflexivity.
Defined.
